(** * KonText: concordance cache status records and the cached-prefix resolver

    A shallow embedding of
      - lib/plugins/abstract/conc_cache.py  (CalcStatus, the cache-map contract)
      - lib/conclib/calc/__init__.py        (wait protocol, prefix resolver, workers)
    together with the properties stated for them.

    Conventions.
      - Wall-clock time is an integer number of ticks, one tick being 0.1 s,
        the granularity of the sleeps in the source ([time.sleep(i * 0.1)]).
        [time.time()] read at clock [c] is [c / 10] seconds; integer second
        stamps ([created], [last_upd]) are compared after scaling by 10.
      - Python objects held in attributes are values of [pyval]; an operation
        Python rejects dynamically raises [TypeError] here as well.
      - Exceptions are instances of subclasses of [Exception].
      - The cache map is abstract in the source.  The resolver and the wait
        protocol run on the one described by the specification; the workers
        are defined over any cache map, and on that one in particular. *)

From Stdlib Require Import ZArith Lia.
From stdpp Require Import gmap strings list pretty.

Open Scope Z_scope.

(** ** Python values and exceptions *)

Inductive exn_class :=
| AssertionError
| CalcStatusException              (* plugins.abstract.conc_cache *)
| ConcCalculationStatusException   (* conclib.calc.errors *)
| FileAccessError                  (* manatee.FileAccessError *)
| NotImplementedError
| OSError                          (* IOError is the same class in Python 3 *)
| TypeError
| UnboundLocalError
| OtherException (name : string).

Record exn := mk_exn { exn_cls : exn_class; exn_msg : string }.

Inductive pyval :=
| PyNone
| PyBool (b : bool)
| PyInt (z : Z)
| PyStr (s : string)
| PyExc (e : exn).

#[global] Instance exn_class_eq_dec : EqDecision exn_class.
Proof. solve_decision. Defined.
#[global] Instance exn_eq_dec : EqDecision exn.
Proof. solve_decision. Defined.
#[global] Instance pyval_eq_dec : EqDecision pyval.
Proof. solve_decision. Defined.

(** Outcome of running a piece of Python: a value, a raised exception, or
    a loop that was still running when the fuel of the model ran out. *)
Inductive result (A : Type) :=
| Ok (a : A)
| Raise (e : exn)
| Diverge.
Arguments Ok {A} a.
Arguments Raise {A} e.
Arguments Diverge {A}.

(** [bool(v)] *)
Definition py_truthy (v : pyval) : bool :=
  match v with
  | PyNone => false
  | PyBool b => b
  | PyInt z => negb (z =? 0)
  | PyStr s => negb (String.eqb s "")
  | PyExc _ => true
  end.

(** The number a value stands for in arithmetic and comparisons
    ([bool] is a subclass of [int]); [None] for a non-number. *)
Definition py_num (v : pyval) : option Z :=
  match v with
  | PyInt z => Some z
  | PyBool b => Some (if b then 1 else 0)
  | _ => None
  end.

(** [str(v)] *)
Definition py_str (v : pyval) : string :=
  match v with
  | PyNone => "None"
  | PyBool true => "True"
  | PyBool false => "False"
  | PyInt z => pretty z
  | PyStr s => s
  | PyExc e => exn_msg e
  end.

Definition type_error (msg : string) : exn := mk_exn TypeError msg.

(** [a >= b] on numbers *)
Definition py_ge (a b : pyval) : result pyval :=
  match py_num a, py_num b with
  | Some x, Some y => Ok (PyBool (y <=? x))
  | _, _ => Raise (type_error "'>=' not supported between instances")
  end.

(** [int(time.time())] at clock [now] (ticks of 0.1 s) *)
Definition int_time (now : Z) : Z := Z.quot now 10.

(** ** lib/plugins/abstract/conc_cache.py *)

Module conc_cache.

Record CalcStatus := mk_CalcStatus {
  task_id : pyval;
  pid : pyval;
  created : pyval;
  last_upd : pyval;
  concsize : pyval;
  fullsize : pyval;
  relconcsize : pyval;
  arf : pyval;
  error : pyval;
  finished : pyval;
  (* the instance attributes besides the ten that [__init__] sets, latest
     first: they shadow a name of the class or of [object] when [update]
     put them there *)
  shadowed : list (string * pyval)
}.

(** [v_norm = str(v) if isinstance(v, BaseException) else v] *)
Definition norm_exc (v : pyval) : pyval :=
  match v with
  | PyExc e => PyStr (py_str v)
  | _ => v
  end.

(** [CalcStatus.__init__]; an omitted argument is passed as its default
    ([PyNone], [PyInt 0] or [PyBool false]). *)
Definition init (getpid now : Z)
    (a_task_id a_pid a_created a_last_upd a_concsize a_fullsize
     a_relconcsize a_arf a_error a_finished : pyval) : CalcStatus :=
  let c := if py_truthy a_created then a_created else PyInt (int_time now) in
  {| task_id := a_task_id;
     pid := if py_truthy a_pid then a_pid else PyInt getpid;
     created := c;
     last_upd := if py_truthy a_last_upd then a_last_upd else c;
     concsize := a_concsize;
     fullsize := a_fullsize;
     relconcsize := a_relconcsize;
     arf := a_arf;
     error := norm_exc a_error;
     finished := a_finished;
     shadowed := [] |}.

(** [CalcStatus()] *)
Definition init_default (getpid now : Z) : CalcStatus :=
  init getpid now PyNone PyNone PyNone PyNone (PyInt 0) (PyInt 0) (PyInt 0)
       (PyInt 0) PyNone (PyBool false).

Definition data_attrs : list string :=
  ["task_id"; "pid"; "created"; "last_upd"; "concsize"; "fullsize";
   "relconcsize"; "arf"; "error"; "finished"].

(** Names an instance finds in the dictionary of its class: the methods of
    the class body, and what every class statement adds. *)
Definition class_attrs : list string :=
  ["__init__"; "to_dict"; "test_error"; "has_some_result"; "update";
   "__module__"; "__dict__"; "__weakref__"; "__doc__"].

(** Names an instance inherits from [object]: [dir(object)] of Python 3.6,
    the first version that accepts the source. *)
Definition object_attrs : list string :=
  ["__class__"; "__delattr__"; "__dir__"; "__doc__"; "__eq__"; "__format__";
   "__ge__"; "__getattribute__"; "__gt__"; "__hash__"; "__init__";
   "__init_subclass__"; "__le__"; "__lt__"; "__ne__"; "__new__";
   "__reduce__"; "__reduce_ex__"; "__repr__"; "__setattr__"; "__sizeof__";
   "__str__"; "__subclasshook__"].

(** [hasattr(self, k)]: the name is found in the instance, in the class or
    in [object].  [interp_attrs] lists the names a later interpreter adds
    to [object] or to every class, all of them plain attributes
    ([__getstate__] since Python 3.11, [__firstlineno__] and
    [__static_attributes__] since 3.13). *)
Definition hasattr (interp_attrs : list string) (self : CalcStatus) (k : string)
  : bool :=
  bool_decide (k ∈ data_attrs) || bool_decide (k ∈ (shadowed self).*1)
  || bool_decide (k ∈ class_attrs) || bool_decide (k ∈ object_attrs)
  || bool_decide (k ∈ interp_attrs).

Definition assoc_set (k : string) (v : pyval) (l : list (string * pyval))
  : list (string * pyval) :=
  (k, v) :: filter (λ kv, kv.1 ≠ k) l.

(** Storing [v] under [k] in the instance dictionary. *)
Definition set_field (self : CalcStatus) (k : string) (v : pyval) : CalcStatus :=
  let '(mk_CalcStatus t p c l cs fs rs a e f sh) := self in
  if String.eqb k "task_id" then mk_CalcStatus v p c l cs fs rs a e f sh
  else if String.eqb k "pid" then mk_CalcStatus t v c l cs fs rs a e f sh
  else if String.eqb k "created" then mk_CalcStatus t p v l cs fs rs a e f sh
  else if String.eqb k "last_upd" then mk_CalcStatus t p c v cs fs rs a e f sh
  else if String.eqb k "concsize" then mk_CalcStatus t p c l v fs rs a e f sh
  else if String.eqb k "fullsize" then mk_CalcStatus t p c l cs v rs a e f sh
  else if String.eqb k "relconcsize" then mk_CalcStatus t p c l cs fs v a e f sh
  else if String.eqb k "arf" then mk_CalcStatus t p c l cs fs rs v e f sh
  else if String.eqb k "error" then mk_CalcStatus t p c l cs fs rs a v f sh
  else if String.eqb k "finished" then mk_CalcStatus t p c l cs fs rs a e v sh
  else mk_CalcStatus t p c l cs fs rs a e f (assoc_set k v sh).

(** [setattr(self, k, v)].  Three names are data descriptors of the class
    or of [object]: [__class__] takes a class and [__dict__] a dictionary,
    which no value of [pyval] is, and [__weakref__] cannot be written.  Any
    other name is stored in the instance. *)
Definition setattr (self : CalcStatus) (k : string) (v : pyval)
  : exn + CalcStatus :=
  if String.eqb k "__class__" then
    inl (type_error "__class__ must be set to a class")
  else if String.eqb k "__dict__" then
    inl (type_error "__dict__ must be set to a dictionary")
  else if String.eqb k "__weakref__" then
    inl (mk_exn (OtherException "AttributeError")
                "attribute '__weakref__' of 'CalcStatus' objects is not writable")
  else inr (set_field self k v).

(** The value of [k] in the instance dictionary, [vars(self).get(k)]; a
    name found only through the class has none. *)
Definition getattr (self : CalcStatus) (k : string) : option pyval :=
  if String.eqb k "task_id" then Some (task_id self)
  else if String.eqb k "pid" then Some (pid self)
  else if String.eqb k "created" then Some (created self)
  else if String.eqb k "last_upd" then Some (last_upd self)
  else if String.eqb k "concsize" then Some (concsize self)
  else if String.eqb k "fullsize" then Some (fullsize self)
  else if String.eqb k "relconcsize" then Some (relconcsize self)
  else if String.eqb k "arf" then Some (arf self)
  else if String.eqb k "error" then Some (error self)
  else if String.eqb k "finished" then Some (finished self)
  else snd <$> List.find (λ kv, String.eqb kv.1 k) (shadowed self).


Definition stall_msg : string := "Wait limit for initial data exceeded".

(** [test_error(time_limit)], read at clock [now]; [time_limit] in seconds.
    The subtraction [t1 - self.last_upd] needs a number. *)
Definition test_error (self : CalcStatus) (time_limit : Z) (now : Z)
  : result (option exn) :=
  match error self with
  | PyNone =>
      if negb (py_truthy (finished self)) then
        match py_num (last_upd self) with
        | Some lu =>
            if 10 * time_limit <? now - 10 * lu
            then Ok (Some (mk_exn CalcStatusException stall_msg))
            else Ok None
        | None => Raise (type_error "unsupported operand type(s) for -")
        end
      else Ok None
  | err => Ok (Some (mk_exn CalcStatusException (py_str err)))
  end.

(** [has_some_result(minsize)]:
    [minsize == -1 and self.finished or self.concsize and self.concsize >= minsize].
    [and]/[or] yield one of their operands, so the value need not be a bool. *)
Definition has_some_result (self : CalcStatus) (minsize : Z) : result pyval :=
  let a := if minsize =? -1 then finished self else PyBool false in
  if py_truthy a then Ok a
  else if py_truthy (concsize self) then py_ge (concsize self) (PyInt minsize)
  else Ok (concsize self).

(** The keywords [update] can pass on to [setattr]: [self] collides with
    the parameter of the method, and [setattr] refuses the three names
    above. *)
Definition assignable (k : string) : bool :=
  negb (bool_decide (k ∈ ["self"; "__class__"; "__dict__"; "__weakref__"])).

(** The loop of [update]: the object after the loop, and the exception that
    left it if any.  Attributes set before the failing name stay set. *)
Fixpoint update_items (interp_attrs : list string) (kw : list (string * pyval))
    (self : CalcStatus) : CalcStatus * option exn :=
  match kw with
  | [] => (self, None)
  | (k, v) :: kw' =>
      if hasattr interp_attrs self k then
        match setattr self k (norm_exc v) with
        | inr self' => update_items interp_attrs kw' self'
        | inl e => (self, Some e)
        end
      else (self, Some (mk_exn AssertionError ("Unknown CalcStatus  attribute: " +:+ k)))
  end.

(** [update] with keyword arguments [kw], at clock [now]: the object as the
    call leaves it, and how the call ends ([Ok] stands for returning
    [self]).  A keyword named [self] collides with the first parameter, and
    the call is refused before the body runs. *)
Definition update (interp_attrs : list string) (now : Z)
    (kw : list (string * pyval)) (self : CalcStatus) : CalcStatus * result unit :=
  if bool_decide ("self" ∈ kw.*1) then
    (self, Raise (type_error "update() got multiple values for argument 'self'"))
  else
    match update_items interp_attrs kw self with
    | (s, None) => (set_field s "last_upd" (PyInt (int_time now)), Ok tt)
    | (s, Some e) => (s, Raise e)
    end.



End conc_cache.

Import conc_cache.

(** ** The world the resolver and the workers act on *)

(** A cache-map key: (subcorpus hash, query prefix). *)
Abbreviation key := (option string * list string)%type.

Record Corpus := mk_Corpus {
  corp_conffile : string;
  corp_subcname : option string
}.

(** What the corpus engine keeps for a concordance, and what a cache file
    holds once the engine saved one: the operations applied so far, the
    number of rows, and whether the engine-side computation is complete. *)
Record ConcData := mk_ConcData {
  cd_ops : list string;
  cd_size : Z;
  cd_finished : bool
}.

Inductive Concordance :=
| EmptyConc (corp : Corpus)                          (* conclib.empty.EmptyConc *)
| PyConc (corp orig_corp : Corpus) (d : ConcData).   (* conclib.pyconc.PyConc *)

Definition is_EmptyConc (c : Concordance) : bool :=
  match c with EmptyConc _ => true | PyConc _ _ _ => false end.

Record Entry := mk_Entry {
  e_path : string;
  e_size : Z;
  e_status : option CalcStatus
}.

Inductive engine_event :=
| EvCompute (q : list string)
| EvExec (command args : string)
| EvSave (path : pyval).

Record World := mk_World {
  cmap : gmap key Entry;              (* the cache map of the corpus *)
  files : gmap string (option ConcData);
      (* durable storage; [None]: a file the engine cannot read *)
  clock : Z;                          (* ticks of 0.1 s *)
  revoked : list pyval;               (* task ids handed to control.revoke *)
  elog : list engine_event            (* engine calls made, latest first *)
}.

Definition set_cmap (m : gmap key Entry) (w : World) : World :=
  mk_World m (files w) (clock w) (revoked w) (elog w).
Definition set_files (f : gmap string (option ConcData)) (w : World) : World :=
  mk_World (cmap w) f (clock w) (revoked w) (elog w).
Definition set_clock (c : Z) (w : World) : World :=
  mk_World (cmap w) (files w) c (revoked w) (elog w).
Definition add_revoked (t : pyval) (w : World) : World :=
  mk_World (cmap w) (files w) (clock w) (t :: revoked w) (elog w).
Definition add_event (e : engine_event) (w : World) : World :=
  mk_World (cmap w) (files w) (clock w) (revoked w) (e :: elog w).

(** The collaborators the code calls but does not define. *)
Record Externals := mk_Externals {
  (* settings.get_int('calc_backend', 'task_time_limit', 300), seconds *)
  TASK_TIME_LIMIT : Z;
  getpid : Z;
  (* corplib.corp_mtime, in ticks *)
  corplib_corp_mtime : Corpus -> Z;
  is_subcorpus : Corpus -> bool;
  (* manatee.Corpus(name) *)
  manatee_Corpus : string -> result Corpus;
  (* the file name the cache-map backend gives to a new entry *)
  new_cache_path : key -> string;
  (* what other processes do to the world while this one sleeps [d] ticks *)
  background : Z -> World -> World;
  (* bgcalc.calc_backend_client(settings) followed by
     app.control.revoke(task_id, terminate=True, signal='SIGKILL'):
     [None] when it returns, the exception when it raises *)
  revoke : pyval -> World -> option exn;
  (* CorpusManager(subcpath=...).get_Corpus(corpus_name, subcname=...) *)
  get_Corpus : list string -> string -> option string -> result Corpus;
  (* cache_factory.get_mapping(corpus_obj): whether the factory hands out
     the cache map *)
  get_mapping : Corpus -> option exn;
  (* GeneralWorker.compute_conc(corp, q, samplesize) *)
  compute_conc : Corpus -> list string -> Z -> result ConcData;
  (* the state of an engine-side computation when looked at for the n-th time *)
  conc_progress : ConcData -> nat -> result ConcData;
  (* conc.sync() *)
  conc_sync : ConcData -> result ConcData;
  (* conc.save(path, ...): the exception if writing fails *)
  conc_save_error : ConcData -> string -> option exn;
  (* conc.exec_command(command, args) *)
  exec_command : ConcData -> string -> string -> result ConcData;
  (* GeneralWorker.get_cached_conc_sizes(corp, q, cachefile): the keyword
     values finished, concsize, fullsize, relconcsize *)
  get_cached_conc_sizes :
    Corpus -> list string -> option ConcData -> result (pyval * pyval * pyval * pyval);
  (* round(conc.compute_ARF(), 2) *)
  compute_ARF : ConcData -> result pyval;
  (* the files the operating system refuses to unlink (for want of a
     permission, or because they are in use): os.remove raises an OSError
     for them *)
  remove_denied : string -> bool;
  (* the attribute names of the running interpreter beyond those of
     Python 3.6, see [conc_cache.hasattr] *)
  interp_attrs : list string
}.

(** ** A state-and-exception monad for the stateful code *)

Definition M (A : Type) : Type := World -> result A * World.

Definition ret {A} (a : A) : M A := λ w, (Ok a, w).
Definition raise {A} (e : exn) : M A := λ w, (Raise e, w).
Definition diverge {A} : M A := λ w, (Diverge, w).
Definition bind {A B} (m : M A) (k : A -> M B) : M B :=
  λ w, match m w with
       | (Ok a, w') => k a w'
       | (Raise e, w') => (Raise e, w')
       | (Diverge, w') => (Diverge, w')
       end.
Definition gets {A} (f : World -> A) : M A := λ w, (Ok (f w), w).
Definition modify (f : World -> World) : M unit := λ w, (Ok tt, f w).
Definition lift {A} (r : result A) : M A := λ w, (r, w).

(** [try: m except <classes accepted by catches> as ex: handler ex] *)
Definition try_except {A} (m : M A) (catches : exn -> bool) (handler : exn -> M A)
  : M A :=
  λ w, match m w with
       | (Raise e, w') => if catches e then handler e w' else (Raise e, w')
       | r => r
       end.

Notation "'let*' x ':=' m 'in' k" := (bind m (λ x, k))
  (at level 10, x pattern, m at level 100, k at level 200).

(** [time.sleep(d)]: the clock moves on by [d] ticks while other processes
    act on the cache map and the files. *)
Definition sleep (X : Externals) (d : Z) : M unit :=
  modify (λ w, set_clock (clock w + d) (background X d w)).

(** ** The cache map (abstract in the source) *)

Module ConcCache.

(** Modelled from the spec: [get_calc_status] of a concrete cache map, the
    stored status of exactly this key, or null. *)
Definition get_calc_status (subchash : option string) (q : list string)
  : M (option CalcStatus) :=
  gets (λ w, cmap w !! (subchash, q) ≫= e_status).

(** Modelled from the spec: [cache_file_path] of a concrete cache map; null
    means that no entry exists for this exact prefix. *)
Definition cache_file_path (subchash : option string) (q : list string)
  : M (option string) :=
  gets (λ w, e_path <$> cmap w !! (subchash, q)).

(** Modelled from the spec: [get_stored_size] of a concrete cache map. *)
Definition get_stored_size (subchash : option string) (q : list string)
  : M (option Z) :=
  gets (λ w, e_size <$> cmap w !! (subchash, q)).

(** Modelled from the spec: [refresh_map] of a concrete cache map, an
    idempotent self-repair that an implementation may leave empty. *)
Definition refresh_map : M unit := ret tt.

(** Modelled from the spec: [del_entry] of a concrete cache map; removes
    exactly the entry of this query sequence. *)
Definition del_entry (subchash : option string) (q : list string) : M unit :=
  modify (λ w, set_cmap (delete (subchash, q) (cmap w)) w).

Definition same_base (subchash : option string) (q : list string) (k : key) : Prop :=
  k.1 = subchash ∧ take 1 k.2 = take 1 q.

#[global] Instance same_base_dec sh q k : Decision (same_base sh q k).
Proof. unfold same_base. apply _. Defined.

(** Modelled from the spec: [del_full_entry] of a concrete cache map;
    removes the entries of all prefixes that share the base query. *)
Definition del_full_entry (subchash : option string) (q : list string) : M unit :=
  modify (λ w, set_cmap (filter (λ kv, ¬ same_base subchash q kv.1) (cmap w)) w).

(** Modelled from the spec: [update_calc_status] of a concrete cache map;
    applies [CalcStatus.update] to the stored status of this exact prefix,
    creating the status (and the entry) if absent. *)
Definition update_calc_status (X : Externals) (subchash : option string)
    (query : list string) (kw : list (string * pyval)) : M unit :=
  λ w,
    let old := cmap w !! (subchash, query) in
    let st := default (init_default (getpid X) (clock w)) (old ≫= e_status) in
    let path := default (new_cache_path X (subchash, query)) (e_path <$> old) in
    let size := default 0 (e_size <$> old) in
    match update (interp_attrs X) (clock w) kw st with
    | (st', Ok _) =>
        (Ok tt, set_cmap (<[(subchash, query) := mk_Entry path size (Some st')]> (cmap w)) w)
    | (_, Raise e) => (Raise e, w)
    | (_, Diverge) => (Diverge, w)
    end.

(** Modelled from the spec: [add_to_map] of a concrete cache map; registers
    or updates the entry for size bookkeeping and returns the path with the
    status that was stored before. *)
Definition add_to_map (X : Externals) (subchash : option string)
    (query : list string) (size : Z) (calc_status : option CalcStatus)
  : M (string * option CalcStatus) :=
  λ w,
    let old := cmap w !! (subchash, query) in
    let path := default (new_cache_path X (subchash, query)) (e_path <$> old) in
    let prev := old ≫= e_status in
    let st := match calc_status with Some s => Some s | None => prev end in
    (Ok (path, prev),
     set_cmap (<[(subchash, query) := mk_Entry path size st]> (cmap w)) w).

End ConcCache.

Import ConcCache.

(** The cache map a worker holds,
    [self._cache_factory.get_mapping(corpus_obj)]: an instance of whatever
    subclass of [AbstractConcCache] the deployment is configured with.
    These are the three methods the workers call on it. *)
Record CacheMap := mk_CacheMap {
  cm_cache_file_path : option string -> list string -> M (option string);
  cm_update_calc_status :
    option string -> list string -> list (string * pyval) -> M unit;
  cm_add_to_map :
    option string -> list string -> Z -> option CalcStatus
    -> M (string * option CalcStatus)
}.

(** Modelled from the spec: the cache map whose methods are those of
    [ConcCache] above. *)
Definition spec_cache_map (X : Externals) : CacheMap :=
  {| cm_cache_file_path := cache_file_path;
     cm_update_calc_status := update_calc_status X;
     cm_add_to_map := add_to_map X |}.

(** ** lib/conclib/calc/__init__.py *)

Module calc.

Definition has_class (c : exn_class) (e : exn) : bool := bool_decide (exn_cls e = c).

(** A path with a NUL character in it, which no system call accepts. *)
Fixpoint has_nul (p : string) : bool :=
  match p with
  | EmptyString => false
  | String c rest => Ascii.eqb c Ascii.zero || has_nul rest
  end.

(** [os.remove(path)]: a [TypeError] for None, a [ValueError] for a path
    with an embedded NUL, an [OSError] when there is no such file or the
    operating system refuses to unlink it (the file stays). *)
Definition os_remove (X : Externals) (path : option string) : M unit :=
  λ w, match path with
       | None => (Raise (type_error "remove: path should be string, not NoneType"), w)
       | Some p =>
           if has_nul p then
             (Raise (mk_exn (OtherException "ValueError") "embedded null byte"), w)
           else
             match files w !! p with
             | Some _ =>
                 if remove_denied X p
                 then (Raise (mk_exn OSError "Permission denied"), w)
                 else (Ok tt, set_files (delete p (files w)) w)
             | None => (Raise (mk_exn OSError "No such file or directory"), w)
             end
       end.

(** [os.path.isfile(path)] *)
Definition os_path_isfile (path : option string) : M bool :=
  λ w, match path with
       | None => (Raise (type_error "stat: path should be string, not NoneType"), w)
       | Some p => (Ok (bool_decide (is_Some (files w !! p))), w)
       end.

(** [PyConc(mcorp, 'l', cache_path, orig_corp=corp)]: open a saved concordance *)
Definition PyConc_load (mcorp : Corpus) (cache_path : string) (corp : Corpus)
  : M Concordance :=
  λ w, match files w !! cache_path with
       | Some (Some d) => (Ok (PyConc mcorp corp d), w)
       | _ => (Raise (mk_exn FileAccessError cache_path), w)
       end.

Fixpoint shuffle_scan (prev_shuffle : bool) (q_ops : list string) : bool :=
  match q_ops with
  | [] => false
  | item :: rest =>
      if String.eqb item "f" then
        if prev_shuffle then true else shuffle_scan true rest
      else shuffle_scan false rest
  end.

Definition _contains_shuffle_seq (q_ops : list string) : bool :=
  shuffle_scan false q_ops.

Definition del_silent (X : Externals) (path : option string) : M unit :=
  try_except (os_remove X path)
             (λ e, has_class OSError e || has_class TypeError e)
             (λ _, ret tt).

Section WithExternals.
Context (X : Externals).

(** [app = bgcalc.calc_backend_client(settings)] and
    [app.control.revoke(task_id, terminate=True, signal='SIGKILL')] *)
Definition control_revoke (t : pyval) : M unit :=
  λ w, match revoke X t w with
       | None => (Ok tt, add_revoked t w)
       | Some e => (Raise e, w)
       end.

Definition cancel_async_task (subchash : option string) (q : list string) : M unit :=
  let* cachefile := cache_file_path subchash q in
  let* status := get_calc_status subchash q in
  let* _ := match status with
            | Some st =>
                try_except
                  (if py_truthy (task_id st) then control_revoke (task_id st)
                   else ret tt)
                  (has_class OSError)
                  (λ _, ret tt)
            | None => ret tt
            end in
  let* _ := del_entry subchash q in
  del_silent X cachefile.

Definition _check_result (q : list string) (subchash : option string) (minsize : Z)
  : M (bool * pyval) :=
  let* status := get_calc_status subchash q in
  match status with
  | None =>
      let* _ := del_full_entry subchash q in
      raise (mk_exn ConcCalculationStatusException "Missing status information")
  | Some st =>
      let* now := gets clock in
      let* err := lift (test_error st (TASK_TIME_LIMIT X) now) in
      match err with
      | Some e => let* _ := del_full_entry subchash q in raise e
      | None =>
          let* r := lift (has_some_result st minsize) in
          ret (negb (py_truthy r), finished st)
      end
  end.

(** [time_limit = 5 if minsize >= 0 else 30], seconds *)
Definition time_limit (minsize : Z) : Z := if 0 <=? minsize then 5 else 30.

(** The [while] loop of [wait_for_conc]; [i] counts the polls, [t0] and [t1]
    are clock readings, [finished] the flag of the latest poll. *)
Fixpoint wait_loop (fuel : nat) (q : list string) (subchash : option string)
    (minsize t0 i t1 : Z) (finished : pyval) : M pyval :=
  if negb (py_truthy finished) && (t1 - t0 <? 10 * time_limit minsize) then
    match fuel with
    | O => diverge
    | S fuel' =>
        let* _ := sleep X i in
        let* t1' := gets clock in
        let* (has_result, finished') := _check_result q subchash minsize in
        wait_loop fuel' q subchash minsize t0 (i + 1) t1' finished'
    end
  else ret finished.

(** Every pass of the loop sleeps at least one tick, so the loop has left
    before this many passes. *)
Definition wait_fuel (minsize : Z) : nat := Z.to_nat (10 * time_limit minsize).

Definition wait_for_conc (q : list string) (subchash : option string) (minsize : Z)
  : M bool :=
  let* t0 := gets clock in
  let* (has_result, finished) := _check_result q subchash minsize in
  let* finished := wait_loop (wait_fuel minsize) q subchash minsize t0 1 t0 finished in
  let* path := cache_file_path subchash q in
  let* isfile := os_path_isfile path in
  if negb isfile then
    let* _ := (if py_truthy finished then del_entry subchash q else ret tt) in
    ret false
  else ret true.

(** [range(n, 0, -1)] *)
Fixpoint range_down (n : nat) : list nat :=
  match n with
  | O => []
  | S k => n :: range_down k
  end.

(** [qq[2:]] *)
Definition drop2 (qq : string) : string :=
  String.substring 2 (String.length qq - 2) qq.

(** The main corpus of an aligned query: the last ['x-'] operation decides. *)
Definition main_corp (corp : Corpus) (prefix : list string) : M Corpus :=
  match List.find (String.prefix "x-") (rev prefix) with
  | Some qq => lift (manatee_Corpus X (drop2 qq))
  | None => ret corp
  end.

Inductive loop_ctl :=
| Continue
| Break (ans : nat * Concordance).

Definition caught_by_resolver (e : exn) : bool :=
  has_class ConcCalculationStatusException e || has_class FileAccessError e.

(** One pass of the [for] loop of [find_cached_conc_base] for a prefix
    length [i] whose cache path [cache_path] is set. *)
Definition try_prefix (corp : Corpus) (subchash : option string) (q : list string)
    (minsize : Z) (i : nat) (cache_path : string) : M loop_ctl :=
  try_except
    (let* ready := wait_for_conc (take i q) subchash minsize in
     if negb ready then
       let* _ := (if negb (minsize =? 0) then cancel_async_task subchash (take i q)
                  else ret tt) in
       ret Continue
     else
       let* (_, finished) := _check_result (take i q) subchash minsize in
       if py_truthy finished then
         let* mcorp := main_corp corp (take i q) in
         let* conc := PyConc_load mcorp cache_path corp in
         ret (Break (i, conc))
       else ret (Break (i, EmptyConc corp)))
    caught_by_resolver
    (λ ex, let* _ := cancel_async_task subchash (take i q) in ret Continue).

(** The [for i in range(srch_from, 0, -1)] loop. *)
Fixpoint search (corp : Corpus) (subchash : option string) (q : list string)
    (minsize : Z) (candidates : list nat) : M (nat * Concordance) :=
  match candidates with
  | [] => ret (O, EmptyConc corp)
  | i :: rest =>
      let* cache_path := cache_file_path subchash (take i q) in
      match cache_path with
      | Some p =>
          if negb (String.eqb p "") then
            let* c := try_prefix corp subchash q minsize i p in
            match c with
            | Continue => search corp subchash q minsize rest
            | Break ans => ret ans
            end
          else search corp subchash q minsize rest
      | None => search corp subchash q minsize rest
      end
  end.

(** Lines 149-163: refresh the map and evict the entry of the full query
    when it failed or is older than the corpus. *)
Definition evict_full (corp : Corpus) (subchash : option string) (q : list string)
  : M unit :=
  let* _ := refresh_map in
  let* calc_status := get_calc_status subchash q in
  match calc_status with
  | Some st =>
      match error st with
      | PyNone =>
          match py_num (created st) with
          | Some c =>
              if 10 * c - corplib_corp_mtime X corp <? 0
              then del_full_entry subchash q
              else ret tt
          | None => raise (type_error "unsupported operand type(s) for -")
          end
      | _ => del_full_entry subchash q
      end
  | None => ret tt
  end.

Definition srch_from (q : list string) : nat :=
  if _contains_shuffle_seq q then 1%nat else length q.

Definition find_cached_conc_base (corp : Corpus) (subchash : option string)
    (q : list string) (minsize : Z) : M (nat * Concordance) :=
  let* _ := evict_full corp subchash q in
  let* ans := search corp subchash q minsize (range_down (srch_from q)) in
  (* the closing debug line reads the loop variable [i], which is unbound
     when the loop had no pass *)
  match srch_from q with
  | O => raise (mk_exn UnboundLocalError "local variable 'i' referenced before assignment")
  | S _ => ret ans
  end.

(** *** The engine calls of the workers *)

Definition engine_compute (corp : Corpus) (q : list string) (samplesize : Z)
  : M ConcData :=
  let* _ := modify (add_event (EvCompute q)) in
  lift (compute_conc X corp q samplesize).

Definition engine_exec (d : ConcData) (command args : string) : M ConcData :=
  let* _ := modify (add_event (EvExec command args)) in
  lift (exec_command X d command args).

(** [conc.save(path, ...)]: the engine writes its current state *)
Definition conc_save (d : ConcData) (path : option string) : M unit :=
  match path with
  | None => raise (type_error "save: path must be a string")
  | Some p =>
      let* _ := modify (add_event (EvSave (PyStr p))) in
      match conc_save_error X d p with
      | Some e => raise e
      | None => modify (λ w, set_files (<[p := Some d]> (files w)) w)
      end
  end.

(** [os.rename(src, dst)] *)
Definition os_rename (src dst : string) : M unit :=
  λ w, match files w !! src with
       | Some c => (Ok tt, set_files (<[dst := c]> (delete src (files w))) w)
       | None => (Raise (mk_exn OSError "No such file or directory"), w)
       end.

Definition sizes_of (corp : Corpus) (q : list string) (cachefile : string)
  : M (pyval * pyval * pyval * pyval) :=
  let* content := gets (λ w, files w !! cachefile) in
  lift (get_cached_conc_sizes X corp q (mjoin content)).

(** *** ConcCalculation *)

Record InitialArgs := mk_InitialArgs {
  cachefile : string;
  already_running : bool
}.

Definition tmp_of (args : InitialArgs) : string := cachefile args +:+ ".tmp".

(** The [while not conc.finished()] loop; [n] counts the looks at the
    engine-side computation, [sleeptime] is in ticks. *)
Fixpoint progress_loop_with (cache_map : CacheMap) (fuel : nat)
    (args : InitialArgs) (corp : Corpus)
    (subchash : option string) (query : list string) (self_task_id : pyval)
    (d0 : ConcData) (n : nat) (sleeptime : Z) : M ConcData :=
  let* d := lift (conc_progress X d0 n) in
  if negb (cd_finished d) then
    match fuel with
    | O => diverge
    | S fuel' =>
        let* _ := conc_save d (Some (tmp_of args)) in
        let* _ := os_rename (tmp_of args) (cachefile args) in
        let* _ := sleep X sleeptime in
        let* (fin, cs, fs, rs) := sizes_of corp query (cachefile args) in
        let* _ := cm_update_calc_status cache_map subchash query
                    [("finished", fin); ("concsize", cs); ("fullsize", fs);
                     ("relconcsize", rs); ("arf", PyNone);
                     ("task_id", self_task_id)] in
        progress_loop_with cache_map fuel' args corp subchash query
                           self_task_id d0 (S n) (sleeptime + 1)
    end
  else ret d.

(** Lines 228-230: everything up to and including the assignment of
    [cache_map]. *)
Definition open_cache_map (subc_dirs : list string) (corpus_name : string)
    (subc_name : option string) : M Corpus :=
  let* corpus_obj := lift (get_Corpus X subc_dirs corpus_name subc_name) in
  match get_mapping X corpus_obj with
  | None => ret corpus_obj
  | Some e => raise e
  end.

(** Lines 232-261: the rest of the [try] block, which runs with
    [cache_map] assigned. *)
Definition compute_and_cache_with (cache_map : CacheMap) (fuel : nat)
    (self_task_id : pyval)
    (args : InitialArgs) (corpus_obj : Corpus) (subchash : option string)
    (query : list string) (samplesize : Z) : M unit :=
  if negb (already_running args) then
    let* d0 := engine_compute corpus_obj query samplesize in
    let* _ := sleep X 1 in
    let* _ := conc_save d0 (Some (cachefile args)) in
    let* d := progress_loop_with cache_map fuel args corpus_obj subchash query
                                 self_task_id d0 O 1 in
    let* _ := conc_save d (Some (tmp_of args)) in
    let* _ := os_rename (tmp_of args) (cachefile args) in
    let* (fin, cs, fs, rs) := sizes_of corpus_obj query (cachefile args) in
    let* a := (if negb (is_subcorpus X corpus_obj) then lift (compute_ARF X d)
               else ret PyNone) in
    let* _ := cm_update_calc_status cache_map subchash query
                [("finished", fin); ("concsize", cs); ("fullsize", fs);
                 ("relconcsize", rs); ("arf", a); ("task_id", self_task_id)] in
    let* _ := cm_add_to_map cache_map subchash query (cd_size d) None in
    ret tt
  else ret tt.

(** [ConcCalculation.__call__], with [cache_map] the object the factory
    hands out.  The handler of [except Exception] records the error only
    [if cache_map is not None], that is when the exception left the second
    part of the [try] block; its own call of [update_calc_status] is
    outside any [try]. *)
Definition ConcCalculation_call_with (cache_map : CacheMap) (fuel : nat)
    (self_task_id : pyval)
    (args : InitialArgs) (subc_dirs : list string) (corpus_name : string)
    (subc_name : option string) (subchash : option string)
    (query : list string) (samplesize : Z) : M unit :=
  λ w, match open_cache_map subc_dirs corpus_name subc_name w with
       | (Ok corpus_obj, w1) =>
           try_except
             (compute_and_cache_with cache_map fuel self_task_id args corpus_obj
                                     subchash query samplesize)
             (λ _, true)
             (λ e, cm_update_calc_status cache_map subchash query
                     [("finished", PyBool true); ("error", PyExc e)])
             w1
       | (Raise e, w1) => (Ok tt, w1)
       | (Diverge, w1) => (Diverge, w1)
       end.

(** The worker when the factory hands out the cache map of the spec. *)
Definition ConcCalculation_call : nat → pyval → InitialArgs → list string →
    string → option string → option string → list string → Z → M unit :=
  ConcCalculation_call_with (spec_cache_map X).

(** *** ConcSyncCalculation

    [cache_map] is [self.cache_map], the object the factory handed to the
    constructor; [find_cached_conc_base] asks the plug-in registry for the
    cache map of the corpus itself. *)

(** [range(a, b)] *)
Definition py_range (a b : nat) : list nat := seq a (b - a).

Fixpoint mark_each_with (cache_map : CacheMap) (subchash : option string)
    (query : list string) (err : exn) (idxs : list nat) : M unit :=
  match idxs with
  | [] => ret tt
  | i :: rest =>
      let* _ := cm_update_calc_status cache_map subchash (take (S i) query)
                  [("error", PyExc err); ("finished", PyBool true)] in
      mark_each_with cache_map subchash query err rest
  end.

Definition _mark_calc_states_err_with (cache_map : CacheMap)
    (subchash : option string) (query : list string)
    (from_idx : nat) (err : exn) : M unit :=
  mark_each_with cache_map subchash query err (py_range from_idx (length query)).

(** [command in 'gae'], a substring test *)
Definition in_gae (command : string) : bool :=
  bool_decide (command ∈ [""; "g"; "a"; "e"; "ga"; "ae"; "gae"]).

(** Lines 296-303: the first [try] block; yields [calc_from] and the
    engine state of [conc]. *)
Definition sync_base_with (cache_map : CacheMap) (corpus_obj : Corpus)
    (subchash : option string)
    (query : list string) (samplesize : Z) : M (nat * ConcData) :=
  let* (calc_from, conc) := find_cached_conc_base corpus_obj subchash query 0 in
  match conc with
  | EmptyConc _ =>
      let* d := engine_compute corpus_obj query samplesize in
      let* d := lift (conc_sync X d) in
      let* path := cm_cache_file_path cache_map subchash (take 1 query) in
      let* _ := conc_save d path in
      let* _ := cm_update_calc_status cache_map subchash (take 1 query)
                  [("finished", PyBool true); ("concsize", PyInt (cd_size d))] in
      ret (S calc_from, d)
  | PyConc _ _ d => ret (calc_from, d)
  end.

(** Lines 311-319: the [try] block of one pass of the second loop. *)
Definition sync_step_with (cache_map : CacheMap) (subchash : option string)
    (query : list string)
    (act : nat) (d : ConcData) : M ConcData :=
  match query !! act with
  | Some (String c args) =>
      let command := String c EmptyString in
      let* d' := engine_exec d command args in
      if in_gae command then
        raise (mk_exn NotImplementedError
                 ("Cannot run command " +:+ command +:+ " in background"))
      else
        let* cachefile :=
          cm_cache_file_path cache_map subchash (take (S act) query) in
        let* _ := conc_save d' cachefile in
        let* _ := cm_update_calc_status cache_map subchash (take (S act) query)
                    [("finished", PyBool true); ("concsize", PyInt (cd_size d'))] in
        ret d'
  | _ => raise (mk_exn (OtherException "IndexError") "string index out of range")
  end.

(** The passes of the second loop over [acts], as long as none raises. *)
Fixpoint run_steps_with (cache_map : CacheMap) (subchash : option string)
    (query : list string)
    (acts : list nat) (d : ConcData) : M ConcData :=
  match acts with
  | [] => ret d
  | act :: rest =>
      let* d' := sync_step_with cache_map subchash query act d in
      run_steps_with cache_map subchash query rest d'
  end.

(** The [for act in range(calc_from, len(query))] loop with its handler,
    which calls [_mark_calc_states_err] outside any [try]. *)
Fixpoint sync_loop_with (cache_map : CacheMap) (subchash : option string)
    (query : list string)
    (acts : list nat) (d : ConcData) : M unit :=
  match acts with
  | [] => ret tt
  | act :: rest =>
      λ w, match sync_step_with cache_map subchash query act d w with
           | (Ok d', w') => sync_loop_with cache_map subchash query rest d' w'
           | (Raise ex, w') =>
               _mark_calc_states_err_with cache_map subchash query act ex w'
           | (Diverge, w') => (Diverge, w')
           end
  end.

(** [ConcSyncCalculation.__call__] *)
Definition ConcSyncCalculation_call_with (cache_map : CacheMap)
    (corpus_obj : Corpus)
    (subchash : option string) (query : list string) (samplesize : Z) : M unit :=
  λ w, match sync_base_with cache_map corpus_obj subchash query samplesize w with
       | (Ok (calc_from, d), w') =>
           sync_loop_with cache_map subchash query
                          (py_range calc_from (length query)) d w'
       | (Raise ex, w') =>
           _mark_calc_states_err_with cache_map subchash query 0 ex w'
       | (Diverge, w') => (Diverge, w')
       end.

(** The worker when the factory hands out the cache map of the spec. *)
Definition mark_each : option string → list string → exn → list nat → M unit :=
  mark_each_with (spec_cache_map X).

Definition _mark_calc_states_err : option string → list string → nat → exn
    → M unit :=
  _mark_calc_states_err_with (spec_cache_map X).

Definition sync_base : Corpus → option string → list string → Z
    → M (nat * ConcData) :=
  sync_base_with (spec_cache_map X).

Definition sync_step : option string → list string → nat → ConcData
    → M ConcData :=
  sync_step_with (spec_cache_map X).

Definition run_steps : option string → list string → list nat → ConcData
    → M ConcData :=
  run_steps_with (spec_cache_map X).

Definition sync_loop : option string → list string → list nat → ConcData
    → M unit :=
  sync_loop_with (spec_cache_map X).

Definition ConcSyncCalculation_call : Corpus → option string → list string → Z
    → M unit :=
  ConcSyncCalculation_call_with (spec_cache_map X).

(** The run of the worker started in [w] fails at step [k]: that step
    raises [e] and leaves the world [we].  The first [try] block, which
    brings the first operation about, counts as step 0. *)
Inductive sync_fails_at (corpus_obj : Corpus) (subchash : option string)
    (query : list string) (samplesize : Z) (w : World)
  : nat → exn → World → Prop :=
| fails_in_base e we :
    sync_base corpus_obj subchash query samplesize w = (Raise e, we) →
    sync_fails_at corpus_obj subchash query samplesize w O e we
| fails_in_step calc_from d0 w0 k dk wk e we :
    sync_base corpus_obj subchash query samplesize w = (Ok (calc_from, d0), w0) →
    (calc_from ≤ k < length query)%nat →
    run_steps subchash query (py_range calc_from k) d0 w0 = (Ok dk, wk) →
    sync_step subchash query k dk wk = (Raise e, we) →
    sync_fails_at corpus_obj subchash query samplesize w k e we.

End WithExternals.
End calc.

Import calc.

(** ** lib/bgcalc/konserver.py *)

Module konserver.

(** [Control.revoke(task, terminate, signal)]: not implemented, [pass] *)
Definition Control_revoke (task : pyval) (terminate : bool) (signal : string)
  : M unit := ret tt.

Section NamedArgs.
Context {V : Type} (none : V).

(** The JSON arguments of a task: an object, any other iterable (an array,
    or a string as the sequence of its characters), or a value that cannot
    be iterated (null, a number, a boolean). *)
Inductive task_args :=
| ArgsDict (d : gmap string V)
| ArgsSeq (l : list V)
| ArgsScalar.

(** [dict((x[1], x[0]) for x in enumerate(names))] *)
Definition arg_mapping (names : list string) : gmap string nat :=
  foldl (λ m x, <[x.2 := x.1]> m) ∅ (imap pair names).

(** The loop [for k, v in mapping.items(): if k in args:
    call_args[mapping[k]] = args[k]]; an index outside [call_args] raises. *)
Fixpoint fill_args (args : gmap string V) (items : list (string * nat))
    (call_args : list V) : result (list V) :=
  match items with
  | [] => Ok call_args
  | (k, i) :: rest =>
      match args !! k with
      | Some v =>
          if decide (i < length call_args)%nat
          then fill_args args rest (<[i := v]> call_args)
          else Raise (mk_exn (OtherException "IndexError")
                             "list assignment index out of range")
      | None => fill_args args rest call_args
      end
  end.

(** [KonserverApp._named_args_to_pos(fn, is_bound, args)], with [fn] given
    by [inspect.getargspec(fn).args] *)
Definition _named_args_to_pos (fn_args : list string) (is_bound : bool)
    (args : task_args) : result (list V) :=
  match args with
  | ArgsDict d =>
      let mapping := arg_mapping (if is_bound then drop 1 fn_args else fn_args) in
      fill_args d (map_to_list mapping) (replicate (size mapping) none)
  | ArgsSeq l => Ok l
  | ArgsScalar => Raise (type_error "object is not iterable")
  end.

End NamedArgs.
End konserver.

(** ** lib/kontext.py (Python 2) *)

Module kontext.

(** [a > b] where [b] may be None: in Python 2 None sorts before every
    number. *)
Definition gt_or_none (a : Z) (b : option Z) : bool :=
  match b with
  | Some b => b <? a
  | None => true
  end.

Section ValidateRange.
(** [_], the gettext translation, and [template % values], the string
    formatting operator applied to a tuple of integers *)
Context (gettext : string → string) (format : string → list Z → result string).

(** [Kontext._validate_range(actual_range, max_range)]: None if the range
    is in order, else the [UserActionException] to report. *)
Definition _validate_range (actual_range : Z * Z) (max_range : Z * option Z)
  : result (option exn) :=
  let '(lo, hi) := actual_range in
  let '(mlo, mhi) := max_range in
  if (lo <? mlo)
     || match mhi with Some m => m <? hi | None => false end
     || (hi <? lo)
  then
    let msg :=
      if gt_or_none mlo mhi then
        Ok (gettext "Invalid range - cannot select rows from an empty list.")
      else
        match mhi with
        | Some m =>
            format
              (gettext "Range [%s, %s] is invalid. It must be non-empty and within [%s, %s].")
              [lo; hi; mlo; m]
        | None =>
            match format "Range [%s, %s] is invalid. It must be non-empty and left value must be greater or equal than %s"
                         [lo; hi; mlo] with
            | Ok m => Ok (gettext m)
            | Raise e => Raise e
            | Diverge => Diverge
            end
        end in
    match msg with
    | Ok m => Ok (Some (mk_exn (OtherException "UserActionException") m))
    | Raise e => Raise e
    | Diverge => Diverge
    end
  else Ok None.

End ValidateRange.

(** [Kontext._parse_sorting_param(k)] *)
Definition _parse_sorting_param (k : string) : result (string * bool) :=
  match k with
  | EmptyString =>
      Raise (mk_exn (OtherException "IndexError") "string index out of range")
  | String c rest =>
      if String.eqb (String c EmptyString) "-" then Ok (rest, true)
      else Ok (k, false)
  end.

Section LegacyForm.
Context {V : Type}.

(** A Werkzeug MultiDict: every key has a list of values. *)
Definition getlist (m : gmap string (list V)) (k : string) : list V :=
  default [] (m !! k).

(** [LegacyForm.__contains__] *)
Definition form_contains (form args : gmap string (list V)) (item : string) : bool :=
  bool_decide (is_Some (form !! item)) || bool_decide (is_Some (args !! item)).

(** [LegacyForm.keys], as a set *)
Definition form_keys (form args : gmap string (list V)) : gset string :=
  dom form ∪ dom args.

(** [LegacyForm.getvalue]: a single value, or the list when there are
    several. *)
Definition getvalue (form args : gmap string (list V)) (k : string)
  : result (V + list V) :=
  let tmp := getlist form k in
  let tmp := if bool_decide (length tmp = O) && bool_decide (is_Some (args !! k))
             then getlist args k else tmp in
  if decide (1 < length tmp)%nat then Ok (inr tmp)
  else match tmp with
       | v :: _ => Ok (inl v)
       | [] => Raise (mk_exn (OtherException "IndexError") "list index out of range")
       end.

End LegacyForm.
End kontext.

(** ** A quiet deployment, used to run the model on concrete inputs

    No other process touches the cache while this one sleeps, the task
    facade is the konserver one (its [revoke] does nothing), the engine
    completes every computation at once, every file may be removed, and
    the interpreter is CPython 3.11. *)
Definition quiet : Externals :=
  {| TASK_TIME_LIMIT := 300;
     getpid := 4242;
     corplib_corp_mtime := λ _, 1000;
     is_subcorpus := λ c, bool_decide (is_Some (corp_subcname c));
     manatee_Corpus := λ n, Ok (mk_Corpus n None);
     new_cache_path := λ k, "/var/cache/new.conc";
     background := λ _ w, w;
     revoke := λ _ _, None;
     get_Corpus := λ _ n s, Ok (mk_Corpus n s);
     get_mapping := λ _, None;
     compute_conc := λ _ q _, Ok (mk_ConcData (take 1 q) 10 true);
     conc_progress := λ d _, Ok d;
     conc_sync := λ d, Ok d;
     conc_save_error := λ _ _, None;
     exec_command := λ d c a, Ok (mk_ConcData (cd_ops d ++ [c +:+ a]) (cd_size d) true);
     get_cached_conc_sizes := λ _ _ _, Ok (PyBool true, PyInt 10, PyInt 10, PyInt 1);
     compute_ARF := λ _, Ok (PyInt 3);
     remove_denied := λ _, false;
     interp_attrs := ["__getstate__"] |}.

(** A status created at second 200 by task T1. *)
Definition status_at_200 (fin : pyval) (size : pyval) (err : pyval) : CalcStatus :=
  mk_CalcStatus (PyStr "T1") (PyInt 7) (PyInt 200) (PyInt 200) size (PyInt 0)
                (PyInt 0) (PyInt 0) err fin [].

Definition syn : Corpus := mk_Corpus "syn2015" None.

Definition saved_q1 : ConcData := mk_ConcData ["q1"] 10 true.

(** A world at second 205 with one cache entry, at [q], and its file. *)
Definition one_entry_world (q : list string) (st : CalcStatus) : World :=
  mk_World (<[(None, q) := mk_Entry "/var/cache/a.conc" 10 (Some st)]> ∅)
           (<["/var/cache/a.conc" := Some saved_q1]> ∅) 2050 [] [].

(** [concsize] holds what its annotation [Optional[int]] allows. *)
Definition size_or_none (v : pyval) : Prop := v = PyNone ∨ is_Some (py_num v).

Definition shuffled : list string := ["q1"; "f"; "f"].

(** A world in which the two longer prefixes of [shuffled] are cached,
    finished and readable, and the first one is not. *)
Definition longer_prefixes_cached : World :=
  let st := status_at_200 (PyBool true) (PyInt 10) PyNone in
  mk_World (<[(None, shuffled) := mk_Entry "/var/cache/c.conc" 10 (Some st)]>
              (<[(None, take 2 shuffled) := mk_Entry "/var/cache/b.conc" 10 (Some st)]> ∅))
           (<["/var/cache/c.conc" := Some (mk_ConcData shuffled 10 true)]>
              (<["/var/cache/b.conc" := Some (mk_ConcData (take 2 shuffled) 10 true)]> ∅))
           2050 [] [].

(** A status with ten rows that is not finished yet. *)
Definition ten_rows_so_far : CalcStatus :=
  status_at_200 (PyBool false) (PyInt 10) PyNone.


(** A task facade that cannot be reached: the call raises an [IOError]. *)
Definition unreachable_facade : Externals :=
  mk_Externals (TASK_TIME_LIMIT quiet) (getpid quiet) (corplib_corp_mtime quiet)
    (is_subcorpus quiet) (manatee_Corpus quiet) (new_cache_path quiet)
    (background quiet)
    (λ _ _, Some (mk_exn OSError "Connection refused"))
    (get_Corpus quiet) (get_mapping quiet) (compute_conc quiet)
    (conc_progress quiet) (conc_sync quiet) (conc_save_error quiet)
    (exec_command quiet) (get_cached_conc_sizes quiet) (compute_ARF quiet)
    (remove_denied quiet) (interp_attrs quiet).


(** A cache map whose backend is down: its calls raise. *)
Definition unavailable_cache : CacheMap :=
  {| cm_cache_file_path := λ _ _,
       raise (mk_exn (OtherException "ConnectionError") "cache backend is down");
     cm_update_calc_status := λ _ _ _,
       raise (mk_exn (OtherException "ConnectionError") "cache backend is down");
     cm_add_to_map := λ _ _ _ _,
       raise (mk_exn (OtherException "ConnectionError") "cache backend is down") |}.

(** The status of [k] is marked as failed with the message of [e]. *)
Definition marked (e : exn) (k : key) (w : World) : Prop :=
  ∃ st, cmap w !! k ≫= e_status = Some st
        ∧ finished st = PyBool true ∧ error st = PyStr (exn_msg e).

(** Every file of [w] other than [tmp] is still there in [w']. *)
Definition keeps_files (tmp : string) (w w' : World) : Prop :=
  ∀ p, p ≠ tmp → is_Some (files w !! p) → is_Some (files w' !! p).

(** However [m] ends, it has removed no file but [tmp]. *)
Definition file_safe {A} (tmp : string) (m : M A) : Prop :=
  ∀ w r w', m w = (r, w') → keeps_files tmp w w'.

(** The status of [k] is finished and holds [n] rows. *)
Definition recorded (n : Z) (k : key) (w : World) : Prop :=
  ∃ st, cmap w !! k ≫= e_status = Some st
        ∧ finished st = PyBool true ∧ concsize st = PyInt n.

Definition volatile_query : list string := ["q1"; "e"; "r10"].

(** An engine that cannot compute, and a corpus that cannot be opened. *)
Definition failing_engine : Externals :=
  mk_Externals (TASK_TIME_LIMIT quiet) (getpid quiet) (corplib_corp_mtime quiet)
    (is_subcorpus quiet) (manatee_Corpus quiet) (new_cache_path quiet)
    (background quiet) (revoke quiet) (get_Corpus quiet) (get_mapping quiet)
    (λ _ _ _, Raise (mk_exn (OtherException "RuntimeError") "query failed"))
    (conc_progress quiet) (conc_sync quiet) (conc_save_error quiet)
    (exec_command quiet) (get_cached_conc_sizes quiet) (compute_ARF quiet)
    (remove_denied quiet) (interp_attrs quiet).

Definition missing_corpus : Externals :=
  mk_Externals (TASK_TIME_LIMIT quiet) (getpid quiet) (corplib_corp_mtime quiet)
    (is_subcorpus quiet) (manatee_Corpus quiet) (new_cache_path quiet)
    (background quiet) (revoke quiet)
    (λ _ _ _, Raise (mk_exn (OtherException "CorpusNotFound") "no such corpus"))
    (get_mapping quiet) (compute_conc quiet)
    (conc_progress quiet) (conc_sync quiet) (conc_save_error quiet)
    (exec_command quiet) (get_cached_conc_sizes quiet) (compute_ARF quiet)
    (remove_denied quiet) (interp_attrs quiet).

(** The entry [e] of [(sh, q)] and its cache file, holding [x], are in
    place. *)
Definition in_place (sh : option string) (q : list string) (e : Entry)
    (x : option ConcData) (w : World) : Prop :=
  cmap w !! (sh, q) = Some e ∧ files w !! e_path e = Some x.

(** The longest a call of [wait_for_conc] can last, in ticks.  The budget
    (5 s or 30 s) is tested before each sleep and the sleeps grow by 0.1 s,
    so the loop stops once 1 + 2 + ... + i ticks reach the budget: after
    ten sleeps (55 ticks) or after twenty-four (300 ticks). *)
Definition wait_bound (minsize : Z) : Z := if 0 <=? minsize then 55 else 300.

(** * Properties of CalcStatus *)

Section CalcStatusProperties.
Context (ia : list string).

Lemma shadowed_set_field (s : CalcStatus) (k : string) (v : pyval) :
  shadowed (set_field s k v)
  = if bool_decide (k ∈ data_attrs) then shadowed s
    else assoc_set k v (shadowed s).
Proof.
  destruct s. unfold set_field.
  repeat (match goal with
          | |- context [String.eqb k ?c] =>
              destruct (String.eqb_spec k c); [subst; reflexivity |]
          end).
  rewrite bool_decide_false; [done |].
  unfold data_attrs. intros H.
  repeat (apply elem_of_cons in H as [? | H]; [done |]).
  by apply elem_of_nil in H.
Qed.

Lemma elem_of_assoc_set (k k' : string) (v : pyval) (l : list (string * pyval)) :
  k' ∈ (assoc_set k v l).*1 ↔ k' = k ∨ k' ∈ l.*1.
Proof.
  unfold assoc_set. rewrite fmap_cons, elem_of_cons. simpl.
  split.
  - intros [-> | H]; [by left | right].
    apply list_elem_of_fmap in H as ([k1 v1] & -> & H).
    apply list_elem_of_filter in H as [_ H].
    apply list_elem_of_fmap. by exists (k1, v1).
  - destruct (decide (k' = k)) as [-> | Hne]; [by left |].
    intros [? | H]; [done | right].
    apply list_elem_of_fmap in H as ([k1 v1] & -> & H).
    apply list_elem_of_fmap. exists (k1, v1). split; [done |].
    apply list_elem_of_filter. done.
Qed.

Lemma hasattr_set_field (s : CalcStatus) (k k' : string) (v : pyval) :
  hasattr ia s k = true →
  hasattr ia (set_field s k v) k' = hasattr ia s k'.
Proof.
  intros Hk. unfold hasattr in *. rewrite shadowed_set_field.
  destruct (bool_decide (k ∈ data_attrs)) eqn:Hd; [done |].
  destruct (decide (k' = k)) as [-> | Hne].
  - rewrite Hd, Hk.
    rewrite (bool_decide_true (k ∈ (assoc_set k v (shadowed s)).*1)); [done |].
    apply elem_of_assoc_set. by left.
  - f_equal. f_equal. f_equal. f_equal. apply bool_decide_ext.
    rewrite elem_of_assoc_set. split; [intros [? | ?]; done | by right].
Qed.

Lemma setattr_assignable (s : CalcStatus) (k : string) (v : pyval) :
  k ≠ "self" →
  (assignable k = true ↔ setattr s k v = inr (set_field s k v))
  ∧ (assignable k = false →
     ∃ e, setattr s k v = inl e
          ∧ (exn_cls e = TypeError ∨ exn_cls e = OtherException "AttributeError")).
Proof.
  intros Hself. unfold assignable, setattr.
  destruct (String.eqb_spec k "__class__") as [-> | H1];
    [split; [split; [done | done] | intros _; eexists; split; [done | by left]] |].
  destruct (String.eqb_spec k "__dict__") as [-> | H2];
    [split; [split; [done | done] | intros _; eexists; split; [done | by left]] |].
  destruct (String.eqb_spec k "__weakref__") as [-> | H3];
    [split; [split; [done | done] | intros _; eexists; split; [done | by right]] |].
  rewrite bool_decide_false.
  - split; [done | done].
  - intros H. repeat (apply elem_of_cons in H as [? | H]; [done |]).
    by apply elem_of_nil in H.
Qed.

(** What the loop of [update] does, told from the object it started with:
    it stops at the first keyword that is unknown or that [setattr]
    refuses. *)
Lemma update_items_spec (kw : list (string * pyval)) (s : CalcStatus) :
  "self" ∉ kw.*1 →
  ((update_items ia kw s).2 = None
   ↔ ∀ k, k ∈ kw.*1 → hasattr ia s k = true ∧ assignable k = true)
  ∧ (∀ e, (update_items ia kw s).2 = Some e →
       (exn_cls e = AssertionError ∧ ∃ k, k ∈ kw.*1 ∧ hasattr ia s k = false)
       ∨ ((exn_cls e = TypeError ∨ exn_cls e = OtherException "AttributeError")
          ∧ ∃ k, k ∈ kw.*1 ∧ assignable k = false)).
Proof.
  revert s. induction kw as [|[k v] kw IH]; intros s Hself; cbn [update_items].
  - split; [| done]. split; [intros _ k Hk; by apply elem_of_nil in Hk | done].
  - cbn [fmap list_fmap fst] in Hself. apply not_elem_of_cons in Hself as [Hk Hkw].
    destruct (setattr_assignable s k (norm_exc v)) as [Hok Hbad]; [done |].
    destruct (hasattr ia s k) eqn:Hh.
    + destruct (assignable k) eqn:Ha.
      * rewrite (proj1 Hok eq_refl).
        destruct (IH (set_field s k (norm_exc v)) Hkw) as [IH1 IH2].
        split.
        -- rewrite IH1. split.
           ++ intros Hall k' Hk'. cbn [fmap list_fmap fst] in Hk'.
              apply elem_of_cons in Hk' as [-> | Hk']; [done |].
              destruct (Hall k' Hk') as [H1 H2].
              by rewrite hasattr_set_field in H1.
           ++ intros Hall k' Hk'. rewrite hasattr_set_field by done.
              apply Hall. cbn [fmap list_fmap fst]. by right.
        -- intros e He. destruct (IH2 e He) as [[Hc (k' & Hk' & Hf)] | [Hc (k' & Hk' & Hf)]].
           ++ left. split; [done |]. exists k'.
              split; [cbn [fmap list_fmap fst]; by right |].
              by rewrite hasattr_set_field in Hf.
           ++ right. split; [done |]. exists k'.
              split; [cbn [fmap list_fmap fst]; by right | done].
      * destruct (Hbad eq_refl) as (e & -> & Hc). cbn [snd]. split.
        -- split; [done |]. intros Hall.
           destruct (Hall k) as [_ Ha']; [cbn [fmap list_fmap fst]; by left |].
           congruence.
        -- intros e' [= <-]. right. split; [done |]. exists k.
           split; [cbn [fmap list_fmap fst]; by left | done].
    + cbn [snd]. split.
      * split; [done |]. intros Hall.
        destruct (Hall k) as [Hh' _]; [cbn [fmap list_fmap fst]; by left |].
        congruence.
      * intros e' [= <-]. left. split; [done |]. exists k.
        split; [cbn [fmap list_fmap fst]; by left | done].
Qed.



Lemma last_upd_set_field_eq (s : CalcStatus) (v : pyval) :
  last_upd (set_field s "last_upd" v) = v.
Proof. by destruct s. Qed.

End CalcStatusProperties.

(** C4, as amended.  [has_some_result(0)] is truthy exactly when [concsize]
    is a number greater than zero: the guard [self.concsize and ...] rejects
    a record whose [concsize] is 0 or None, finished or not. *)
Theorem has_some_result_zero (s : CalcStatus) :
  (∃ v, has_some_result s 0 = Ok v ∧ py_truthy v = true)
  ↔ ∃ n, py_num (concsize s) = Some n ∧ 0 < n.
Proof.
  unfold has_some_result. simpl.
  destruct (concsize s) as [|[]|z|str|e]; simpl.
  - split; [intros (v & [= <-] & Hv); done | intros (n & Hn & _); done].
  - split; [intros _; exists 1; split; [done | lia] | intros _; eauto].
  - split; [intros (v & [= <-] & Hv); done | intros (n & [= <-] & Hn); lia].
  - destruct (Z.eqb_spec z 0) as [-> | Hz]; simpl.
    + split; [intros (v & [= <-] & Hv); done | intros (n & [= <-] & Hn); lia].
    + unfold py_ge. simpl. split.
      * intros (v & [= <-] & Hv). exists z. split; [done |].
        simpl in Hv. apply Z.leb_le in Hv. lia.
      * intros (n & [= <-] & Hn). eexists. split; [done |].
        simpl. apply Z.leb_le. lia.
  - destruct (String.eqb str "") eqn:Hstr; simpl.
    + split; [| intros (n & Hn & _); done].
      intros (v & [= <-] & Hv). simpl in Hv. rewrite Hstr in Hv. done.
    + split; [intros (v & Hv & _); done | intros (n & Hn & _); done].
  - split; [intros (v & Hv & _); done | intros (n & Hn & _); done].
Qed.

(** C4 fails as stated: a freshly created record has [concsize = 0], and
    [has_some_result(0)] yields that 0, which is falsy. *)
Lemma has_some_result_zero_rejects_empty :
  has_some_result (init_default 4242 0) 0 = Ok (PyInt 0)
  ∧ py_truthy (PyInt 0) = false.
Proof. split; reflexivity. Qed.




(** * Reasoning about the monad *)

Section MonadLemmas.
Context {A B : Type}.

Lemma bind_Ok_inv (m : M A) (k : A → M B) (w w' : World) (b : B) :
  bind m k w = (Ok b, w') → ∃ a w1, m w = (Ok a, w1) ∧ k a w1 = (Ok b, w').
Proof.
  unfold bind. destruct (m w) as [[a|e|] w1]; [eauto | done | done].
Qed.

Lemma bind_Ok (m : M A) (k : A → M B) (w w1 : World) (a : A) :
  m w = (Ok a, w1) → bind m k w = k a w1.
Proof. unfold bind. by intros ->. Qed.

Lemma bind_Raise (m : M A) (k : A → M B) (w w1 : World) (e : exn) :
  m w = (Raise e, w1) → bind m k w = (Raise e, w1).
Proof. unfold bind. by intros ->. Qed.

Lemma try_except_Ok_inv (m : M A) (c : exn → bool) (h : exn → M A)
    (w w' : World) (a : A) :
  try_except m c h w = (Ok a, w') →
  m w = (Ok a, w') ∨ ∃ e w1, m w = (Raise e, w1) ∧ c e = true ∧ h e w1 = (Ok a, w').
Proof.
  unfold try_except. destruct (m w) as [[a'|e|] w1]; [by left | | done].
  destruct (c e) eqn:Hc; [| done]. right. eauto.
Qed.

End MonadLemmas.

Ltac inv_bind H :=
  let a := fresh "a" in
  let w := fresh "w" in
  let H1 := fresh "Hm" in
  apply bind_Ok_inv in H; destruct H as (a & w & H1 & H); cbv beta in H.

(** * The shuffle test and the candidate prefixes *)

Section Candidates.

Lemma shuffle_scan_spec (prev : bool) (q : list string) :
  shuffle_scan prev q = true
  ↔ (prev = true ∧ ∃ l, q = "f" :: l) ∨ ∃ l1 l2, q = l1 ++ "f" :: "f" :: l2.
Proof.
  revert prev. induction q as [|item rest IH]; intros prev; simpl.
  - split; [done |]. intros [(_ & l & Hl) | (l1 & l2 & Hl)]; [done |].
    by destruct l1.
  - destruct (String.eqb_spec item "f") as [-> | Hne].
    + destruct prev.
      * split; [| done]. intros _. left. eauto.
      * rewrite IH. split.
        -- intros [(_ & l & ->) | (l1 & l2 & ->)]; right.
           ++ by exists [], l.
           ++ by exists ("f" :: l1), l2.
        -- intros [(? & _) | (l1 & l2 & Hl)]; [done |].
           destruct l1 as [|x l1]; simplify_eq/=.
           ++ left. eauto.
           ++ right. eauto.
    + rewrite IH. split.
      * intros [(? & _) | (l1 & l2 & ->)]; [done |].
        right. by exists (item :: l1), l2.
      * intros [(_ & l & Hl) | (l1 & l2 & Hl)]; [congruence |].
        destruct l1 as [|x l1]; simplify_eq/=.
        right. eauto.
Qed.

(** [_contains_shuffle_seq] holds exactly of the sequences with two
    adjacent ['f'] operations. *)
Lemma contains_shuffle_seq_spec (q : list string) :
  _contains_shuffle_seq q = true ↔ ∃ l1 l2, q = l1 ++ "f" :: "f" :: l2.
Proof.
  unfold _contains_shuffle_seq. rewrite shuffle_scan_spec.
  split; [intros [(? & _) | H]; done | by right].
Qed.

Lemma elem_of_range_down (n i : nat) : i ∈ range_down n ↔ (1 ≤ i ≤ n)%nat.
Proof.
  induction n as [|n IH]; simpl.
  - split; [inversion 1 | lia].
  - rewrite elem_of_cons, IH. lia.
Qed.

End Candidates.

(** * The search loop *)

Section Search.
Context (X : Externals).

Lemma try_prefix_index corp sh q minsize i p w w' j c :
  try_prefix X corp sh q minsize i p w = (Ok (Break (j, c)), w') → j = i.
Proof.
  unfold try_prefix. intros H.
  apply try_except_Ok_inv in H as [H | (e & w1 & _ & _ & H)].
  - inv_bind H. destruct a; simpl in H.
    + inv_bind H. destruct a as [hr fin].
      destruct (py_truthy fin).
      * inv_bind H. inv_bind H. by injection H as -> _ _.
      * by injection H as -> _ _.
    + inv_bind H. discriminate.
  - inv_bind H. discriminate.
Qed.

Lemma try_prefix_empty_or_loaded corp sh q minsize i p w w' j c :
  try_prefix X corp sh q minsize i p w = (Ok (Break (j, c)), w') →
  c = EmptyConc corp ∨ ∃ mcorp d, c = PyConc mcorp corp d.
Proof.
  unfold try_prefix. intros H.
  apply try_except_Ok_inv in H as [H | (e & w1 & _ & _ & H)].
  - inv_bind H. destruct a; simpl in H.
    + inv_bind H. destruct a as [hr fin].
      destruct (py_truthy fin).
      * inv_bind H. inv_bind H. injection H as _ <- _. right.
        unfold PyConc_load in Hm2. destruct (files w2 !! p) as [[d|]|]; [| done | done].
        injection Hm2 as <- _. eauto.
      * injection H as _ <- _. by left.
    + inv_bind H. discriminate.
  - inv_bind H. discriminate.
Qed.

(** What the loop returns is the initial answer or one of the candidates. *)
Lemma search_index corp sh q minsize cands w w' i c :
  search X corp sh q minsize cands w = (Ok (i, c), w') →
  (i = O ∧ c = EmptyConc corp) ∨ i ∈ cands.
Proof.
  revert w. induction cands as [|j rest IH]; intros w; simpl.
  - intros [= <- <- _]. by left.
  - intros H. inv_bind H. unfold cache_file_path, gets in Hm. injection Hm as <- <-.
    assert (Hrest : search X corp sh q minsize rest w = (Ok (i, c), w') →
                    (i = O ∧ c = EmptyConc corp) ∨ i ∈ j :: rest).
    { intros Hr. apply IH in Hr as [? | ?]; [by left | right; by right]. }
    destruct (e_path <$> cmap w !! (sh, take j q)) as [p|]; [| auto].
    destruct (negb (String.eqb p "")); [| auto].
    inv_bind H. destruct a as [|[j' c']].
    + apply IH in H as [? | ?]; [by left | right; by right].
    + injection H as -> -> ->. apply try_prefix_index in Hm as ->.
      right. by left.
Qed.

End Search.

(** * The wait protocol *)

Lemma has_some_result_returns (s : CalcStatus) (minsize : Z) :
  size_or_none (concsize s) → ∃ r, has_some_result s minsize = Ok r.
Proof.
  unfold has_some_result. intros Hs.
  destruct (py_truthy (if minsize =? -1 then finished s else PyBool false));
    [eauto |].
  destruct (py_truthy (concsize s)) eqn:Ht; [| eauto].
  destruct Hs as [Hs | [n Hn]]; [by rewrite Hs in Ht |].
  unfold py_ge. rewrite Hn. simpl. eauto.
Qed.

Lemma test_error_halts (s : CalcStatus) (limit now : Z) :
  test_error s limit now ≠ Diverge.
Proof.
  unfold test_error. destruct (error s); try done.
  destruct (negb (py_truthy (finished s))); [| done].
  destruct (py_num (last_upd s)); [| done].
  by destruct (10 * limit <? now - 10 * z).
Qed.

Lemma has_some_result_halts (s : CalcStatus) (minsize : Z) :
  has_some_result s minsize ≠ Diverge.
Proof.
  unfold has_some_result.
  destruct (py_truthy (if minsize =? -1 then finished s else PyBool false));
    [done |].
  destruct (py_truthy (concsize s)); [| done].
  unfold py_ge. by destruct (py_num (concsize s)).
Qed.

Section Wait.
Context (X : Externals).

Lemma check_result_halts q sh minsize w :
  (_check_result X q sh minsize w).1 ≠ Diverge.
Proof.
  unfold _check_result, bind, get_calc_status, gets, lift, del_full_entry,
    modify, raise, ret.
  destruct (cmap w !! (sh, q) ≫= e_status) as [st|]; [| done].
  pose proof (test_error_halts st (TASK_TIME_LIMIT X) (clock w)) as Ht.
  destruct (test_error st (TASK_TIME_LIMIT X) (clock w)) as [[e|]| |]; try done.
  pose proof (has_some_result_halts st minsize) as Hh.
  by destruct (has_some_result st minsize).
Qed.

Lemma check_result_clock q sh minsize w r w' :
  _check_result X q sh minsize w = (r, w') → clock w' = clock w.
Proof.
  unfold _check_result, bind, get_calc_status, gets, lift, del_full_entry, modify, raise, ret.
  destruct (cmap w !! (sh, q) ≫= e_status) as [st|]; [| by intros [= _ <-]].
  destruct (test_error st (TASK_TIME_LIMIT X) (clock w)) as [[e|]| |];
    try by intros [= _ <-].
  destruct (has_some_result st minsize); by intros [= _ <-].
Qed.

(** A poll of an entry whose status is in order: nothing is deleted, and
    the flag of the status comes back. *)
Lemma check_result_ok q sh minsize w st r :
  cmap w !! (sh, q) ≫= e_status = Some st →
  test_error st (TASK_TIME_LIMIT X) (clock w) = Ok None →
  has_some_result st minsize = Ok r →
  _check_result X q sh minsize w = (Ok (negb (py_truthy r), finished st), w).
Proof.
  intros Hst Herr Hres.
  unfold _check_result, bind, get_calc_status, gets, lift, ret.
  by rewrite Hst, Herr, Hres.
Qed.

Lemma wait_loop_leaves fuel q sh minsize t0 i t1 fin w :
  negb (py_truthy fin) && (t1 - t0 <? 10 * time_limit minsize) = false →
  wait_loop X fuel q sh minsize t0 i t1 fin w = (Ok fin, w).
Proof. intros H. destruct fuel; simpl; by rewrite H. Qed.

Lemma time_limit_pos minsize : 0 < time_limit minsize.
Proof. unfold time_limit. destruct (0 <=? minsize); lia. Qed.

(** The fuel [wait_for_conc] gives its loop is never used up. *)
Lemma wait_loop_halts fuel q sh minsize t0 i t1 fin w :
  clock w = t1 → 1 ≤ i → 10 * time_limit minsize - (t1 - t0) ≤ Z.of_nat fuel →
  (wait_loop X fuel q sh minsize t0 i t1 fin w).1 ≠ Diverge.
Proof.
  revert i t1 fin w. induction fuel as [|fuel IH]; intros i t1 fin w Hc Hi Hf.
  - rewrite wait_loop_leaves; [done |].
    apply andb_false_iff. right. apply Z.ltb_ge. lia.
  - simpl. destruct (negb (py_truthy fin) && (t1 - t0 <? 10 * time_limit minsize));
      [| done].
    unfold bind at 1. unfold sleep, modify. unfold bind at 1. unfold gets.
    unfold bind at 1.
    pose proof (check_result_halts q sh minsize
                  (set_clock (clock w + i) (background X i w))) as Hh.
    destruct (_check_result X q sh minsize _) as [[[hr fin']|e|] w1] eqn:Hchk;
      [| done | done].
    apply check_result_clock in Hchk. simpl in Hchk.
    apply IH; simpl; lia.
Qed.

(** [wait_for_conc] always comes back: with a verdict or with an exception. *)
Lemma wait_for_conc_halts q sh minsize w :
  (wait_for_conc X q sh minsize w).1 ≠ Diverge.
Proof.
  unfold wait_for_conc. unfold bind at 1. unfold gets. unfold bind at 1.
  pose proof (check_result_halts q sh minsize w) as Hh.
  destruct (_check_result X q sh minsize w) as [[[hr fin]|e|] w1] eqn:Hchk;
    [| done | done].
  apply check_result_clock in Hchk.
  unfold bind at 1.
  pose proof (wait_loop_halts (wait_fuel minsize) q sh minsize (clock w) 1
                (clock w) fin w1 Hchk) as Hl.
  destruct (wait_loop X _ q sh minsize (clock w) 1 (clock w) fin w1)
    as [[fin'|e|] w2]; [| done |].
  - unfold bind, cache_file_path, gets, os_path_isfile, del_entry, modify, ret.
    destruct (e_path <$> cmap w2 !! (sh, q)); [| done].
    destruct (negb _); [| done]. by destruct (py_truthy fin').
  - exfalso. apply Hl; [lia | | done].
    unfold wait_fuel. pose proof (time_limit_pos minsize). lia.
Qed.

(** The wait of an entry that is finished at the first poll: no sleep, and
    the verdict is whether the cache file exists. *)
Lemma wait_for_conc_finished q sh minsize w st p sz r :
  cmap w !! (sh, q) = Some (mk_Entry p sz (Some st)) →
  test_error st (TASK_TIME_LIMIT X) (clock w) = Ok None →
  has_some_result st minsize = Ok r →
  py_truthy (finished st) = true →
  is_Some (files w !! p) →
  wait_for_conc X q sh minsize w = (Ok true, w).
Proof.
  intros He Herr Hres Hfin Hfile. unfold wait_for_conc.
  unfold bind at 1. unfold gets. unfold bind at 1.
  erewrite check_result_ok; [| by rewrite He | done | done].
  unfold bind at 1. rewrite wait_loop_leaves by (by rewrite Hfin).
  unfold bind, cache_file_path, gets, os_path_isfile, ret. rewrite He. simpl.
  by rewrite bool_decide_true.
Qed.

End Wait.

(** * The resolver on a full hit *)

Lemma test_error_finished (s : CalcStatus) (limit now : Z) :
  error s = PyNone → py_truthy (finished s) = true →
  test_error s limit now = Ok None.
Proof. unfold test_error. by intros -> ->. Qed.

Section FullHit.
Context (X : Externals).

Lemma evict_full_keeps corp sh q w st c :
  cmap w !! (sh, q) ≫= e_status = Some st →
  error st = PyNone →
  py_num (created st) = Some c →
  corplib_corp_mtime X corp ≤ 10 * c →
  evict_full X corp sh q w = (Ok tt, w).
Proof.
  intros Hst Herr Hc Hm.
  unfold evict_full, bind, refresh_map, ret, get_calc_status, gets.
  rewrite Hst, Herr, Hc.
  destruct (Z.ltb_spec (10 * c - corplib_corp_mtime X corp) 0); [lia | done].
Qed.

Lemma try_prefix_loads corp sh q minsize i w st p sz d mcorp :
  cmap w !! (sh, take i q) = Some (mk_Entry p sz (Some st)) →
  error st = PyNone →
  py_truthy (finished st) = true →
  size_or_none (concsize st) →
  files w !! p = Some (Some d) →
  main_corp X corp (take i q) w = (Ok mcorp, w) →
  try_prefix X corp sh q minsize i p w = (Ok (Break (i, PyConc mcorp corp d)), w).
Proof.
  intros He Herr Hfin Hsize Hfile Hmc.
  destruct (has_some_result_returns st minsize Hsize) as [r Hr].
  pose proof (test_error_finished st (TASK_TIME_LIMIT X) (clock w) Herr Hfin) as Ht.
  unfold try_prefix, try_except.
  erewrite bind_Ok; [| by eapply wait_for_conc_finished; [done..| by rewrite Hfile]].
  simpl.
  erewrite bind_Ok; [| by apply check_result_ok; [by rewrite He | done..]].
  cbv beta iota. rewrite Hfin.
  erewrite bind_Ok; [| done].
  unfold bind, PyConc_load, ret. by rewrite Hfile.
Qed.

(** A pass that breaks ends the loop with its answer. *)
Lemma search_break corp sh q minsize i rest w w' e ans :
  cmap w !! (sh, take i q) = Some e →
  e_path e ≠ "" →
  try_prefix X corp sh q minsize i (e_path e) w = (Ok (Break ans), w') →
  search X corp sh q minsize (i :: rest) w = (Ok ans, w').
Proof.
  intros He Hp Htry. cbn [search].
  unfold bind at 1. unfold cache_file_path, gets. rewrite He.
  cbn [fmap option_fmap option_map].
  destruct (String.eqb_spec (e_path e) "") as [Heq | _]; [done |]. cbn [negb].
  by rewrite (bind_Ok _ _ _ _ _ Htry).
Qed.

(** A prefix without a registered cache path is passed over. *)
Lemma search_skip corp sh q minsize i rest w :
  cmap w !! (sh, take i q) = None →
  search X corp sh q minsize (i :: rest) w = search X corp sh q minsize rest w.
Proof.
  intros He. cbn [search].
  unfold bind at 1. unfold cache_file_path, gets. by rewrite He.
Qed.

End FullHit.

(** C1, as amended.  For a non-empty query without two adjacent shuffle
    operations whose full-prefix entry is finished, not errored and not older
    than the corpus, and whose cache file the engine can read,
    [find_cached_conc_base] returns [(len(q), c)] with [c] the concordance
    loaded from that file, and changes nothing. *)
Theorem find_cached_conc_base_full_hit (X : Externals) (corp : Corpus)
    (sh : option string) (q : list string) (minsize : Z) (w : World)
    (st : CalcStatus) (p : string) (sz c : Z) (d : ConcData) (mcorp : Corpus) :
  q ≠ [] →
  _contains_shuffle_seq q = false →
  cmap w !! (sh, q) = Some (mk_Entry p sz (Some st)) →
  p ≠ "" →
  error st = PyNone →
  py_truthy (finished st) = true →
  py_num (created st) = Some c →
  corplib_corp_mtime X corp ≤ 10 * c →
  size_or_none (concsize st) →
  files w !! p = Some (Some d) →
  main_corp X corp q w = (Ok mcorp, w) →
  find_cached_conc_base X corp sh q minsize w
  = (Ok (length q, PyConc mcorp corp d), w).
Proof.
  intros Hq Hsh He Hp Herr Hfin Hc Hm Hsize Hfile Hmc.
  unfold find_cached_conc_base.
  erewrite bind_Ok; [| by eapply evict_full_keeps; [by rewrite He | done..]].
  unfold srch_from. rewrite Hsh.
  destruct (length q) as [|n] eqn:Hlen; [by destruct q |].
  assert (Htake : take (S n) q = q) by (apply take_ge; lia).
  erewrite bind_Ok; [reflexivity |].
  cbn [range_down]. eapply search_break.
  - by rewrite Htake, He.
  - done.
  - eapply try_prefix_loads; rewrite ?Htake; done.
Qed.

(** C1 fails as stated: [shuffled] has a finished, fresh, readable entry at
    its full length, and the resolver, which then looks at [q[:1]] only,
    returns [(0, EmptyConc)]. *)
Lemma full_hit_missed_after_shuffles :
  let st := status_at_200 (PyBool true) (PyInt 10) PyNone in
  let w := one_entry_world shuffled st in
  cmap w !! (None, shuffled) = Some (mk_Entry "/var/cache/a.conc" 10 (Some st))
  ∧ files w !! "/var/cache/a.conc" = Some (Some saved_q1)
  ∧ corplib_corp_mtime quiet syn ≤ 10 * 200
  ∧ (find_cached_conc_base quiet syn None shuffled 0 w).1 = Ok (O, EmptyConc syn).
Proof. vm_compute. repeat split; congruence. Qed.

Lemma find_cached_conc_base_full_hit_witness :
  let st := status_at_200 (PyBool true) (PyInt 10) PyNone in
  let w := one_entry_world ["q1"; "r100"] st in
  find_cached_conc_base quiet syn None ["q1"; "r100"] (-1) w
  = (Ok (2%nat, PyConc syn syn saved_q1), w).
Proof.
  intros st w.
  apply (find_cached_conc_base_full_hit quiet syn None ["q1"; "r100"] (-1) w st
           "/var/cache/a.conc" 10 200 saved_q1 syn).
  - discriminate.
  - reflexivity.
  - vm_compute. reflexivity.
  - discriminate.
  - reflexivity.
  - reflexivity.
  - reflexivity.
  - vm_compute. discriminate.
  - right. vm_compute. eauto.
  - vm_compute. reflexivity.
  - reflexivity.
Defined.

(** * The candidates after consecutive shuffles *)

Lemma find_cached_conc_base_Ok_inv (X : Externals) corp sh q minsize w w' ans :
  find_cached_conc_base X corp sh q minsize w = (Ok ans, w') →
  ∃ w1, evict_full X corp sh q w = (Ok tt, w1)
        ∧ search X corp sh q minsize (range_down (srch_from q)) w1 = (Ok ans, w')
        ∧ srch_from q ≠ O.
Proof.
  unfold find_cached_conc_base. intros H.
  inv_bind H. destruct a. inv_bind H.
  destruct (srch_from q); [done |]. injection H as -> ->. eauto.
Qed.

(** C3, as amended.  When [q] has two adjacent shuffle operations the search
    starts at prefix length 1 and runs downward, so [q[:1]] is the only
    candidate and the start index returned is 0 or 1; otherwise the
    candidates are all lengths from [len(q)] down to 1. *)
Theorem shuffle_seq_candidates (X : Externals) (corp : Corpus)
    (sh : option string) (q : list string) (minsize : Z) (w : World) :
  ((∃ l1 l2, q = l1 ++ "f" :: "f" :: l2) →
     range_down (srch_from q) = [1%nat]
     ∧ ∀ i c w', find_cached_conc_base X corp sh q minsize w = (Ok (i, c), w') →
                 (i ≤ 1)%nat)
  ∧ (¬ (∃ l1 l2, q = l1 ++ "f" :: "f" :: l2) →
     ∀ i, i ∈ range_down (srch_from q) ↔ (1 ≤ i ≤ length q)%nat).
Proof.
  split.
  - intros Hsh. apply contains_shuffle_seq_spec in Hsh.
    assert (Hc : range_down (srch_from q) = [1%nat])
      by (unfold srch_from; by rewrite Hsh).
    split; [done |]. intros i c w' H.
    apply find_cached_conc_base_Ok_inv in H as (w1 & _ & H & _).
    rewrite Hc in H. apply search_index in H as [[-> _] | Hi]; [lia |].
    apply list_elem_of_singleton in Hi as ->. lia.
  - intros Hn i. rewrite <- contains_shuffle_seq_spec in Hn.
    unfold srch_from. destruct (_contains_shuffle_seq q); [done |].
    apply elem_of_range_down.
Qed.

(** C3 fails as stated: [shuffled] ends in two shuffles, its prefixes of
    length 2 and 3 are cached, finished and readable, yet the only candidate
    is length 1 and the resolver returns [(0, EmptyConc)]. *)
Lemma shuffle_seq_skips_longer_prefixes :
  (∃ l1 l2, shuffled = l1 ++ "f" :: "f" :: l2)
  ∧ range_down (srch_from shuffled) = [1%nat]
  ∧ is_Some (cmap longer_prefixes_cached !! (None, take 2 shuffled))
  ∧ is_Some (cmap longer_prefixes_cached !! (None, take 3 shuffled))
  ∧ (find_cached_conc_base quiet syn None shuffled 0 longer_prefixes_cached).1
    = Ok (O, EmptyConc syn).
Proof.
  split_and!.
  - by exists ["q1"], [].
  - reflexivity.
  - vm_compute. eauto.
  - vm_compute. eauto.
  - vm_compute. reflexivity.
Qed.

Lemma shuffle_seq_candidates_witness :
  range_down (srch_from shuffled) = [1%nat]
  ∧ ∀ i c w', find_cached_conc_base quiet syn None shuffled 0 longer_prefixes_cached
              = (Ok (i, c), w') → (i ≤ 1)%nat.
Proof.
  apply (shuffle_seq_candidates quiet syn None shuffled 0 longer_prefixes_cached).
  by exists ["q1"], [].
Defined.

(** * Eviction of a failed full entry *)

Lemma del_full_entry_gone sh q w :
  cmap (del_full_entry sh q w).2 !! (sh, q) = None.
Proof.
  unfold del_full_entry, modify. simpl.
  apply map_lookup_filter_None. right. intros e _ Hn. apply Hn.
  by split.
Qed.

Lemma shuffle_seq_length (q : list string) :
  _contains_shuffle_seq q = true → (2 ≤ length q)%nat.
Proof.
  intros (l1 & l2 & ->)%contains_shuffle_seq_spec.
  rewrite length_app. simpl. lia.
Qed.

(** C5.  When the status of the full query has [error] set, the resolver
    first evicts the full entry, so that [get_calc_status(subchash, q)] is
    null (and no cache path is registered for [q]), and only then runs the
    search over the prefixes; the answer it returns is a proper prefix. *)
Theorem failed_full_entry_evicted (X : Externals) (corp : Corpus)
    (sh : option string) (q : list string) (minsize : Z) (w : World)
    (st : CalcStatus) :
  cmap w !! (sh, q) ≫= e_status = Some st →
  error st ≠ PyNone →
  ∃ w1, evict_full X corp sh q w = (Ok tt, w1)
        ∧ w1 = (del_full_entry sh q w).2
        ∧ get_calc_status sh q w1 = (Ok None, w1)
        ∧ cache_file_path sh q w1 = (Ok None, w1)
        ∧ find_cached_conc_base X corp sh q minsize w
          = (let* ans := search X corp sh q minsize (range_down (srch_from q)) in
             match srch_from q with
             | O => raise (mk_exn UnboundLocalError
                             "local variable 'i' referenced before assignment")
             | S _ => ret ans
             end) w1
        ∧ ∀ i c w', find_cached_conc_base X corp sh q minsize w = (Ok (i, c), w') →
                    (i < length q)%nat.
Proof.
  intros Hst Herr.
  assert (Hev : evict_full X corp sh q w = (Ok tt, (del_full_entry sh q w).2)).
  { unfold evict_full, bind, refresh_map, ret, get_calc_status, gets.
    rewrite Hst. by destruct (error st). }
  pose proof (del_full_entry_gone sh q w) as Hgone.
  exists (del_full_entry sh q w).2. split_and!; try done.
  - unfold get_calc_status, gets. by rewrite Hgone.
  - unfold cache_file_path, gets. by rewrite Hgone.
  - unfold find_cached_conc_base. by rewrite (bind_Ok _ _ _ _ _ Hev).
  - intros i c w' H.
    apply find_cached_conc_base_Ok_inv in H as (w1 & Hev' & H & Hne).
    rewrite Hev in Hev'. injection Hev' as <-.
    unfold srch_from in *. destruct (_contains_shuffle_seq q) eqn:Hsh.
    + apply shuffle_seq_length in Hsh.
      apply search_index in H as [[-> _] | Hi]; [lia |].
      apply list_elem_of_singleton in Hi as ->. lia.
    + destruct (length q) as [|n] eqn:Hlen; [done |].
      cbn [range_down] in H. rewrite search_skip in H.
      * apply search_index in H as [[-> _] | Hi]; [lia |].
        apply elem_of_range_down in Hi. lia.
      * rewrite take_ge by lia. done.
Qed.

Lemma failed_full_entry_evicted_witness :
  let st := status_at_200 (PyBool true) (PyInt 0) (PyStr "engine failure") in
  let w := one_entry_world ["q1"; "r100"] st in
  ∃ w1, evict_full quiet syn None ["q1"; "r100"] w = (Ok tt, w1)
        ∧ get_calc_status None ["q1"; "r100"] w1 = (Ok None, w1).
Proof.
  intros st w.
  destruct (failed_full_entry_evicted quiet syn None ["q1"; "r100"] 0 w st)
    as (w1 & Hev & _ & Hget & _).
  - vm_compute. reflexivity.
  - discriminate.
  - exists w1. split; [exact Hev | exact Hget].
Defined.

(** * Waiting for an entry that stays unfinished *)

Lemma test_error_pending (s : CalcStatus) (limit now lu : Z) :
  error s = PyNone → py_truthy (finished s) = false →
  py_num (last_upd s) = Some lu → now - 10 * lu ≤ 10 * limit →
  test_error s limit now = Ok None.
Proof.
  unfold test_error. intros -> -> -> Hle. simpl.
  destruct (Z.ltb_spec (10 * limit) (now - 10 * lu)); [lia | done].
Qed.

Section Pending.
Context (X : Externals) (sh : option string) (q : list string) (minsize : Z).
Context (e : Entry) (st : CalcStatus) (lu : Z) (x : option ConcData).

(** Other processes leave this entry and its file alone. *)
Hypothesis background_keeps : ∀ d w,
  cmap (background X d w) !! (sh, q) = cmap w !! (sh, q)
  ∧ files (background X d w) !! e_path e = files w !! e_path e.
Hypothesis entry_status : e_status e = Some st.
Hypothesis no_error : error st = PyNone.
Hypothesis not_finished : py_truthy (finished st) = false.
Hypothesis stamp : py_num (last_upd st) = Some lu.
Hypothesis sized : size_or_none (concsize st).

Let L := 10 * time_limit minsize.

Local Abbreviation pending := (in_place sh q e x).

Lemma check_result_pending w :
  pending w → clock w - 10 * lu ≤ 10 * TASK_TIME_LIMIT X →
  ∃ hr, _check_result X q sh minsize w = (Ok (hr, finished st), w).
Proof.
  intros [He _] Hle.
  destruct (has_some_result_returns st minsize sized) as [r Hr].
  eexists. apply check_result_ok; [by rewrite He | | done].
  by eapply test_error_pending.
Qed.

Lemma wait_loop_pending fuel t0 i w :
  pending w →
  t0 + 2 * L ≤ 10 * (lu + TASK_TIME_LIMIT X) →
  t0 ≤ clock w ≤ t0 + 2 * L → 1 ≤ i ≤ clock w - t0 + 1 →
  L - (clock w - t0) ≤ Z.of_nat fuel →
  ∃ w', wait_loop X fuel q sh minsize t0 i (clock w) (finished st) w
        = (Ok (finished st), w')
        ∧ pending w' ∧ clock w' ≤ t0 + 2 * L.
Proof.
  revert i w. induction fuel as [|fuel IH]; intros i w Hp Hb Hc Hi Hf.
  - exists w. split; [| split; [done | lia]].
    apply wait_loop_leaves. apply andb_false_iff. right. apply Z.ltb_ge.
    unfold L in *. lia.
  - destruct (Z.ltb_spec (clock w - t0) L) as [Hlt | Hge].
    + cbn [wait_loop]. rewrite not_finished. cbn [negb andb].
      destruct (Z.ltb_spec (clock w - t0) (10 * time_limit minsize)) as [_ | ?];
        [| unfold L in *; lia].
      unfold bind at 1. unfold sleep, modify. unfold bind at 1. unfold gets.
      set (w1 := set_clock (clock w + i) (background X i w)).
      assert (Hp1 : pending w1).
      { destruct Hp as [He Hx]. destruct (background_keeps i w) as [Hk1 Hk2].
        split; simpl; congruence. }
      assert (Hc1 : clock w1 = clock w + i) by done.
      destruct (check_result_pending w1 Hp1) as [hr Hchk]; [lia |].
      rewrite (bind_Ok _ _ _ _ _ Hchk). cbv beta iota.
      apply IH; try done; lia.
    + exists w. split; [| split; [done | lia]].
      apply wait_loop_leaves. apply andb_false_iff. right. apply Z.ltb_ge.
      unfold L in *. lia.
Qed.

(** The wait runs out of time and still reports "ready", because the
    cache file exists. *)
Lemma wait_for_conc_pending w :
  pending w →
  clock w + 2 * L ≤ 10 * (lu + TASK_TIME_LIMIT X) →
  ∃ w', wait_for_conc X q sh minsize w = (Ok true, w')
        ∧ pending w' ∧ clock w' ≤ clock w + 2 * L.
Proof.
  intros Hp Hb. pose proof (time_limit_pos minsize) as Hpos.
  unfold wait_for_conc. unfold bind at 1. unfold gets.
  destruct (check_result_pending w Hp) as [hr Hchk]; [unfold L in *; lia |].
  rewrite (bind_Ok _ _ _ _ _ Hchk). cbv beta iota.
  destruct (wait_loop_pending (wait_fuel minsize) (clock w) 1 w Hp Hb)
    as (w' & Hloop & Hp' & Hc'); [unfold L in *; lia | lia | |].
  { unfold wait_fuel, L. lia. }
  rewrite (bind_Ok _ _ _ _ _ Hloop).
  exists w'. split; [| done]. destruct Hp' as [He Hx].
  unfold bind, cache_file_path, gets, os_path_isfile, ret. rewrite He. simpl.
  by rewrite Hx, bool_decide_true.
Qed.

(** The pass of the loop for such a prefix breaks with the empty
    concordance. *)
Lemma try_prefix_pending corp q0 i w :
  take i q0 = q →
  pending w →
  clock w + 2 * L ≤ 10 * (lu + TASK_TIME_LIMIT X) →
  ∃ w', try_prefix X corp sh q0 minsize i (e_path e) w
        = (Ok (Break (i, EmptyConc corp)), w').
Proof.
  intros Hq Hp Hb.
  destruct (wait_for_conc_pending w Hp Hb) as (w' & Hwait & Hp' & Hc').
  destruct (check_result_pending w' Hp') as [hr Hchk]; [lia |].
  exists w'. unfold try_prefix, try_except. rewrite Hq.
  rewrite (bind_Ok _ _ _ _ _ Hwait). cbn [negb].
  rewrite (bind_Ok _ _ _ _ _ Hchk). cbv beta iota.
  by rewrite not_finished.
Qed.

End Pending.

(** C10.  A positive start index does not mean that a cached concordance
    was loaded: when the entry of the full prefix is in order but not
    finished and its cache file exists, the wait runs out, the prefix still
    counts as ready, and the resolver returns [(len(q), EmptyConc)]. *)
Theorem unfinished_entry_gives_empty_base (X : Externals) (corp : Corpus)
    (sh : option string) (q : list string) (minsize : Z) (w : World)
    (st : CalcStatus) (p : string) (sz c lu : Z) (x : option ConcData) :
  (∀ d w, cmap (background X d w) !! (sh, q) = cmap w !! (sh, q)
          ∧ files (background X d w) !! p = files w !! p) →
  q ≠ [] →
  _contains_shuffle_seq q = false →
  cmap w !! (sh, q) = Some (mk_Entry p sz (Some st)) →
  p ≠ "" →
  files w !! p = Some x →
  error st = PyNone →
  py_truthy (finished st) = false →
  py_num (created st) = Some c →
  corplib_corp_mtime X corp ≤ 10 * c →
  py_num (last_upd st) = Some lu →
  clock w + 20 * time_limit minsize ≤ 10 * (lu + TASK_TIME_LIMIT X) →
  size_or_none (concsize st) →
  (0 < length q)%nat
  ∧ (find_cached_conc_base X corp sh q minsize w).1
    = Ok (length q, EmptyConc corp).
Proof.
  intros Hbg Hq Hsh He Hp Hx Herr Hfin Hc Hm Hlu Hb Hsize.
  split; [destruct q; [done | simpl; lia] |].
  unfold find_cached_conc_base.
  erewrite bind_Ok; [| by eapply evict_full_keeps; [by rewrite He | done..]].
  unfold srch_from. rewrite Hsh.
  destruct (length q) as [|n] eqn:Hlen; [by destruct q |].
  assert (Htake : take (S n) q = q) by (apply take_ge; lia).
  destruct (try_prefix_pending X sh q minsize (mk_Entry p sz (Some st)) st lu x
              Hbg eq_refl Herr Hfin Hlu Hsize corp q (S n) w Htake)
    as [w' Htry]; [done | lia |].
  erewrite bind_Ok; [reflexivity |].
  cbn [range_down]. eapply search_break; [by rewrite Htake, He | done | done].
Qed.

Lemma unfinished_entry_gives_empty_base_witness :
  let st := status_at_200 (PyBool false) (PyInt 0) PyNone in
  (find_cached_conc_base quiet syn None ["q1"] 0 (one_entry_world ["q1"] st)).1
  = Ok (1%nat, EmptyConc syn).
Proof.
  intros st.
  apply (unfinished_entry_gives_empty_base quiet syn None ["q1"] 0
           (one_entry_world ["q1"] st) st "/var/cache/a.conc" 10 200 200
           (Some saved_q1)).
  - intros d w. split; reflexivity.
  - discriminate.
  - reflexivity.
  - vm_compute. reflexivity.
  - discriminate.
  - vm_compute. reflexivity.
  - reflexivity.
  - reflexivity.
  - reflexivity.
  - vm_compute. discriminate.
  - reflexivity.
  - vm_compute. discriminate.
  - right. vm_compute. eauto.
Defined.

(** * The wait does not stop at a partial result *)

(** The loop of [wait_for_conc] is left only with a finished status or
    with the time budget used up; the acceptance flag of the polls is not
    consulted. *)
Lemma wait_loop_exit (X : Externals) fuel q sh minsize t0 i t1 fin w fin' w' :
  clock w = t1 →
  wait_loop X fuel q sh minsize t0 i t1 fin w = (Ok fin', w') →
  py_truthy fin' = true ∨ 10 * time_limit minsize ≤ clock w' - t0.
Proof.
  revert i t1 fin w. induction fuel as [|fuel IH]; intros i t1 fin w Hc; cbn [wait_loop].
  - destruct (negb (py_truthy fin)) eqn:Hf; cbn [andb].
    + destruct (Z.ltb_spec (t1 - t0) (10 * time_limit minsize)); [done |].
      intros [= <- <-]. right. lia.
    + intros [= <- <-]. left. by destruct (py_truthy fin).
  - destruct (negb (py_truthy fin)) eqn:Hf; cbn [andb].
    + destruct (Z.ltb_spec (t1 - t0) (10 * time_limit minsize)).
      * intros Hw. inv_bind Hw. inv_bind Hw. inv_bind Hw. destruct a1 as [hr fin1].
        unfold gets in Hm0. injection Hm0 as <- <-.
        apply check_result_clock in Hm1. by apply IH in Hw.
      * intros [= <- <-]. right. lia.
    + intros [= <- <-]. left. by destruct (py_truthy fin).
Qed.

(** C2, the code at the failing input.  The stored status satisfies
    [has_some_result(1)] at the first poll and at every later one, yet
    [wait_for_conc] keeps polling until the budget of 5 s is used up: it
    returns at 5.5 s, after ten sleeps. *)
Theorem wait_for_conc_ignores_partial_result :
  let w := one_entry_world ["q1"] ten_rows_so_far in
  has_some_result ten_rows_so_far 1 = Ok (PyBool true)
  ∧ finished ten_rows_so_far = PyBool false
  ∧ wait_for_conc quiet ["q1"] None 1 w = (Ok true, set_clock (clock w + 55) w).
Proof. vm_compute. repeat split; reflexivity. Qed.

(** * Cancellation *)

Section Cancel.
Context (X : Externals).

Lemma set_files_same (w : World) : set_files (files w) w = w.
Proof. by destruct w. Qed.

(** [del_silent] swallows the [TypeError] and the [OSError] of
    [os.remove], not its [ValueError]. *)
Lemma del_silent_cases (path : option string) (w : World) :
  del_silent X path w
  = match path with
    | Some p =>
        if has_nul p then
          (Raise (mk_exn (OtherException "ValueError") "embedded null byte"), w)
        else
          (Ok tt, if remove_denied X p then w
                  else set_files (delete p (files w)) w)
    | None => (Ok tt, w)
    end.
Proof.
  unfold del_silent, try_except, os_remove. destruct path as [p|]; [| done].
  destruct (has_nul p); [done |].
  destruct (files w !! p) eqn:Hp.
  - by destruct (remove_denied X p).
  - cbn. destruct (remove_denied X p); [done |].
    by rewrite (delete_id _ _ Hp), set_files_same.
Qed.

Lemma revoke_step sh q w :
  (∀ st e, cmap w !! (sh, q) ≫= e_status = Some st →
           py_truthy (task_id st) = true →
           revoke X (task_id st) w = Some e → exn_cls e = OSError) →
  ∃ w1, (match cmap w !! (sh, q) ≫= e_status with
         | Some st =>
             try_except
               (if py_truthy (task_id st)
                then control_revoke X (task_id st) else ret tt)
               (has_class OSError) (λ _, ret tt)
         | None => ret tt
         end) w = (Ok tt, w1)
        ∧ cmap w1 = cmap w ∧ files w1 = files w ∧ clock w1 = clock w
        ∧ elog w1 = elog w.
Proof.
  intros Hrev.
  destruct (cmap w !! (sh, q) ≫= e_status) as [st|] eqn:Hst; [| by exists w].
  unfold try_except. destruct (py_truthy (task_id st)) eqn:Ht; [| by exists w].
  unfold control_revoke. destruct (revoke X (task_id st) w) as [e|] eqn:Hr.
  - apply (Hrev st e eq_refl Ht) in Hr. unfold has_class.
    rewrite bool_decide_true by done. by exists w.
  - by eexists.
Qed.

(** [cancel_async_task] once the revoke call is behind: the entry goes,
    then [del_silent] is called on the path the entry had. *)
Lemma cancel_after_revoke sh q w :
  (∀ st e, cmap w !! (sh, q) ≫= e_status = Some st →
           py_truthy (task_id st) = true →
           revoke X (task_id st) w = Some e → exn_cls e = OSError) →
  ∃ w1, cmap w1 = delete (sh, q) (cmap w) ∧ files w1 = files w
        ∧ clock w1 = clock w ∧ elog w1 = elog w
        ∧ cancel_async_task X sh q w
          = del_silent X (e_path <$> cmap w !! (sh, q)) w1.
Proof.
  intros Hrev. unfold cancel_async_task.
  unfold bind at 1. unfold cache_file_path at 1. unfold gets at 1.
  unfold bind at 1. unfold get_calc_status at 1. unfold gets at 1.
  destruct (revoke_step sh q w Hrev) as (w1 & Hs & Hc1 & Hf1 & Hk1 & Hl1).
  rewrite (bind_Ok _ _ _ _ _ Hs).
  unfold bind at 1. unfold del_entry, modify.
  exists (set_cmap (delete (sh, q) (cmap w1)) w1).
  cbn. rewrite Hc1. done.
Qed.

End Cancel.




(** * The workers on failure *)

(** The workers with the cache map of the spec, unfolded by one step. *)
Section SpecCacheMap.
Context (X : Externals).

Lemma mark_each_cons sh q e i rest :
  mark_each X sh q e (i :: rest)
  = let* _ := update_calc_status X sh (take (S i) q)
                [("error", PyExc e); ("finished", PyBool true)] in
    mark_each X sh q e rest.
Proof. reflexivity. Qed.

Lemma mark_calc_states_err_eq sh q from_idx e :
  _mark_calc_states_err X sh q from_idx e
  = mark_each X sh q e (py_range from_idx (length q)).
Proof. reflexivity. Qed.

Lemma run_steps_cons sh q act rest d :
  run_steps X sh q (act :: rest) d
  = let* d' := sync_step X sh q act d in run_steps X sh q rest d'.
Proof. reflexivity. Qed.

Lemma sync_loop_cons sh q act rest d w :
  sync_loop X sh q (act :: rest) d w
  = match sync_step X sh q act d w with
    | (Ok d', w') => sync_loop X sh q rest d' w'
    | (Raise ex, w') => _mark_calc_states_err X sh q act ex w'
    | (Diverge, w') => (Diverge, w')
    end.
Proof. reflexivity. Qed.

Lemma sync_step_eq sh q act d :
  sync_step X sh q act d
  = match q !! act with
    | Some (String c args) =>
        let command := String c EmptyString in
        let* d' := engine_exec X d command args in
        if in_gae command then
          raise (mk_exn NotImplementedError
                   ("Cannot run command " +:+ command +:+ " in background"))
        else
          let* cachefile := cache_file_path sh (take (S act) q) in
          let* _ := conc_save X d' cachefile in
          let* _ := update_calc_status X sh (take (S act) q)
                      [("finished", PyBool true); ("concsize", PyInt (cd_size d'))] in
          ret d'
    | _ => raise (mk_exn (OtherException "IndexError") "string index out of range")
    end.
Proof. reflexivity. Qed.

Lemma ConcSyncCalculation_call_eq corp sh q n w :
  ConcSyncCalculation_call X corp sh q n w
  = match sync_base X corp sh q n w with
    | (Ok (calc_from, d), w') =>
        sync_loop X sh q (py_range calc_from (length q)) d w'
    | (Raise ex, w') => _mark_calc_states_err X sh q 0 ex w'
    | (Diverge, w') => (Diverge, w')
    end.
Proof. reflexivity. Qed.

End SpecCacheMap.

Section Marking.
Context (X : Externals).

Lemma update_error_first (ia : list string) (now : Z) (e : exn) (s : CalcStatus) :
  ∃ s', update ia now [("error", PyExc e); ("finished", PyBool true)] s = (s', Ok tt)
        ∧ finished s' = PyBool true ∧ error s' = PyStr (exn_msg e).
Proof. destruct s. eexists. split; [reflexivity |]. by split. Qed.

Lemma update_finished_first (ia : list string) (now : Z) (e : exn) (s : CalcStatus) :
  ∃ s', update ia now [("finished", PyBool true); ("error", PyExc e)] s = (s', Ok tt)
        ∧ finished s' = PyBool true ∧ error s' = PyStr (exn_msg e).
Proof. destruct s. eexists. split; [reflexivity |]. by split. Qed.

(** Recording a failure: the call returns, the status of the key is marked,
    no other key changes, and neither the files nor the engine are touched. *)
Lemma update_calc_status_marks sh q e kw w :
  kw = [("error", PyExc e); ("finished", PyBool true)]
  ∨ kw = [("finished", PyBool true); ("error", PyExc e)] →
  ∃ w', update_calc_status X sh q kw w = (Ok tt, w')
        ∧ marked e (sh, q) w'
        ∧ (∀ k, k ≠ (sh, q) → cmap w' !! k = cmap w !! k)
        ∧ files w' = files w ∧ elog w' = elog w.
Proof.
  intros Hkw. unfold update_calc_status.
  set (st := default (init_default (getpid X) (clock w))
                     (cmap w !! (sh, q) ≫= e_status)).
  assert (Hu : ∃ s', update (interp_attrs X) (clock w) kw st = (s', Ok tt)
                     ∧ finished s' = PyBool true ∧ error s' = PyStr (exn_msg e)).
  { destruct Hkw as [-> | ->];
      [apply update_error_first | apply update_finished_first]. }
  destruct Hu as (s' & -> & Hf & He).
  eexists. split; [done |]. split_and!; try done.
  - exists s'. simpl. by rewrite lookup_insert_eq.
  - intros k Hk. simpl. by rewrite lookup_insert_ne.
Qed.

Lemma marked_preserved e k w w' sh q :
  marked e (sh, q) w' →
  (∀ k', k' ≠ (sh, q) → cmap w' !! k' = cmap w !! k') →
  marked e k w → marked e k w'.
Proof.
  intros Hnew Hother Hk. destruct (decide (k = (sh, q))) as [-> | Hne]; [done |].
  destruct Hk as (st & Hst & Hf). exists st. by rewrite Hother.
Qed.

Lemma mark_each_marks sh q e idxs w :
  ∃ w', mark_each X sh q e idxs w = (Ok tt, w')
        ∧ (∀ i, i ∈ idxs → marked e (sh, take (S i) q) w')
        ∧ (∀ k, marked e k w → marked e k w')
        ∧ files w' = files w ∧ elog w' = elog w.
Proof.
  revert w. induction idxs as [|j rest IH]; intros w.
  - exists w. split_and!; try done. intros i Hi. inversion Hi.
  - rewrite mark_each_cons.
    destruct (update_calc_status_marks sh (take (S j) q) e _ w (or_introl eq_refl))
      as (w1 & Hu & Hm & Ho & Hf & Hl).
    rewrite (bind_Ok _ _ _ _ _ Hu).
    destruct (IH w1) as (w' & Hr & Hall & Hkeep & Hf' & Hl').
    exists w'. split_and!; [done | | | congruence | congruence].
    + intros i [-> | Hi]%elem_of_cons; [by apply Hkeep | by apply Hall].
    + intros k Hk. apply Hkeep. by eapply marked_preserved.
Qed.

Lemma elem_of_py_range (a b i : nat) : i ∈ py_range a b ↔ (a ≤ i < b)%nat.
Proof. unfold py_range. rewrite elem_of_seq. lia. Qed.

(** [_mark_calc_states_err] marks every prefix from [from_idx] to the end. *)
Lemma mark_calc_states_err_marks sh q from_idx e w :
  ∃ w', _mark_calc_states_err X sh q from_idx e w = (Ok tt, w')
        ∧ (∀ i, (from_idx ≤ i < length q)%nat → marked e (sh, take (S i) q) w')
        ∧ files w' = files w ∧ elog w' = elog w.
Proof.
  rewrite mark_calc_states_err_eq.
  destruct (mark_each_marks sh q e (py_range from_idx (length q)) w)
    as (w' & Hr & Hall & _ & Hf & Hl).
  exists w'. split_and!; try done.
  intros i Hi. apply Hall. by apply elem_of_py_range.
Qed.

End Marking.

Section SyncWorker.
Context (X : Externals).

Lemma sync_loop_after_steps sh q pre post d w d' w' :
  run_steps X sh q pre d w = (Ok d', w') →
  sync_loop X sh q (pre ++ post) d w = sync_loop X sh q post d' w'.
Proof.
  revert d w. induction pre as [|a pre IH]; intros d w.
  - by intros [= -> ->].
  - rewrite run_steps_cons. cbn [app]. rewrite sync_loop_cons.
    intros H. inv_bind H. rewrite Hm. by apply IH.
Qed.

Lemma py_range_split (a k b : nat) :
  (a ≤ k < b)%nat → py_range a b = py_range a k ++ k :: py_range (S k) b.
Proof.
  intros Hk. unfold py_range.
  replace (b - a)%nat with ((k - a) + S (b - S k))%nat by lia.
  rewrite seq_app. cbn [seq]. by replace (a + (k - a))%nat with k by lia.
Qed.

End SyncWorker.

(** C7.  When the synchronous worker fails at step [k] with exception [e],
    it returns, the status of every prefix [q[:i+1]] with [k <= i < len(q)]
    has [finished = True] and [error = str(e)], and the engine is not called
    again: no later step is processed. *)
Theorem sync_failure_marks_remaining (X : Externals) (corp : Corpus)
    (sh : option string) (q : list string) (samplesize : Z) (w : World)
    (k : nat) (e : exn) (we : World) :
  sync_fails_at X corp sh q samplesize w k e we →
  ∃ w', ConcSyncCalculation_call X corp sh q samplesize w = (Ok tt, w')
        ∧ (∀ i, (k ≤ i < length q)%nat → marked e (sh, take (S i) q) w')
        ∧ elog w' = elog we ∧ files w' = files we.
Proof.
  intros [e' we' Hbase | calc_from d0 w0 k' dk wk e' we' Hbase Hk Hsteps Hstep];
    rewrite ConcSyncCalculation_call_eq; rewrite Hbase.
  - destruct (mark_calc_states_err_marks X sh q 0 e' we')
      as (w' & Hr & Hall & Hf & Hl).
    exists w'. done.
  - rewrite (py_range_split calc_from k' (length q)) by done.
    rewrite (sync_loop_after_steps X sh q _ _ _ _ _ _ Hsteps).
    rewrite sync_loop_cons. rewrite Hstep.
    destruct (mark_calc_states_err_marks X sh q k' e' we')
      as (w' & Hr & Hall & Hf & Hl).
    exists w'. done.
Qed.

Lemma sync_failure_marks_remaining_witness :
  let st := status_at_200 (PyBool true) (PyInt 10) PyNone in
  let w := one_entry_world ["q1"] st in
  let e := mk_exn NotImplementedError "Cannot run command e in background" in
  ∃ w', ConcSyncCalculation_call quiet syn None volatile_query 0 w = (Ok tt, w')
        ∧ marked e (None, take 2 volatile_query) w'
        ∧ marked e (None, take 3 volatile_query) w'.
Proof.
  intros st w e.
  destruct (sync_failure_marks_remaining quiet syn None volatile_query 0 w 1 e
              (add_event (EvExec "e" "") w))
    as (w' & Hc & Hall & _).
  - apply (fails_in_step quiet syn None volatile_query 0 w 1%nat saved_q1 w
             1%nat saved_q1 w).
    + vm_compute. reflexivity.
    + vm_compute. lia.
    + reflexivity.
    + vm_compute. reflexivity.
  - exists w'. split; [exact Hc |].
    split; apply Hall; vm_compute; lia.
Defined.

(** * The asynchronous worker on failure *)

Section WorkerFiles.
Context (X : Externals) (tmp : string).
Hypothesis background_keeps_files :
  ∀ d w p, is_Some (files w !! p) → is_Some (files (background X d w) !! p).

Lemma keeps_files_refl w : keeps_files tmp w w.
Proof. by intros p _ H. Qed.

Lemma keeps_files_trans w1 w2 w3 :
  keeps_files tmp w1 w2 → keeps_files tmp w2 w3 → keeps_files tmp w1 w3.
Proof. intros H12 H23 p Hp H. apply H23; [done |]. by apply H12. Qed.

Lemma keeps_files_same w w' : files w' = files w → keeps_files tmp w w'.
Proof. intros Hf p _ H. by rewrite Hf. Qed.

Lemma file_safe_same {A} (m : M A) :
  (∀ w r w', m w = (r, w') → files w' = files w) → file_safe tmp m.
Proof. intros H w r w' Hm. apply keeps_files_same. by apply (H w r). Qed.

Lemma file_safe_ret {A} (a : A) : file_safe tmp (ret a).
Proof. apply file_safe_same. by intros w r w' [= _ <-]. Qed.

Lemma file_safe_raise {A} (e : exn) : file_safe tmp (raise e : M A).
Proof. apply file_safe_same. by intros w r w' [= _ <-]. Qed.

Lemma file_safe_diverge {A} : file_safe tmp (diverge : M A).
Proof. apply file_safe_same. by intros w r w' [= _ <-]. Qed.

Lemma file_safe_lift {A} (x : result A) : file_safe tmp (lift x).
Proof. apply file_safe_same. by intros w r w' [= _ <-]. Qed.

Lemma file_safe_gets {A} (f : World → A) : file_safe tmp (gets f).
Proof. apply file_safe_same. by intros w r w' [= _ <-]. Qed.

Lemma file_safe_bind {A B} (m : M A) (k : A → M B) :
  file_safe tmp m → (∀ a, file_safe tmp (k a)) → file_safe tmp (bind m k).
Proof.
  intros Hm Hk w r w'. unfold bind.
  destruct (m w) as [[a|e|] w1] eqn:Hmw; specialize (Hm _ _ _ Hmw).
  - intros Hka. eapply keeps_files_trans; [done |]. by eapply Hk.
  - by intros [= _ <-].
  - by intros [= _ <-].
Qed.

Lemma file_safe_try_except {A} (m : M A) (c : exn → bool) (h : exn → M A) :
  file_safe tmp m → (∀ e, file_safe tmp (h e)) →
  file_safe tmp (try_except m c h).
Proof.
  intros Hm Hh w r w'. unfold try_except.
  destruct (m w) as [[a|e|] w1] eqn:Hmw; specialize (Hm _ _ _ Hmw).
  - by intros [= _ <-].
  - destruct (c e); [| by intros [= _ <-]].
    intros Hhe. eapply keeps_files_trans; [done |]. by eapply Hh.
  - by intros [= _ <-].
Qed.

Lemma file_safe_sleep d : file_safe tmp (sleep X d).
Proof.
  intros w r w'. unfold sleep, modify. intros [= _ <-] p _ H.
  cbn. by apply background_keeps_files.
Qed.

Lemma file_safe_engine_compute corp q n : file_safe tmp (engine_compute X corp q n).
Proof.
  unfold engine_compute. apply file_safe_bind; [| intros _; apply file_safe_lift].
  apply file_safe_same. by intros w r w' [= _ <-].
Qed.

Lemma file_safe_conc_save d path : file_safe tmp (conc_save X d path).
Proof.
  unfold conc_save. destruct path as [p|]; [| apply file_safe_raise].
  apply file_safe_bind; [apply file_safe_same; by intros w r w' [= _ <-] |].
  intros _. destruct (conc_save_error X d p); [apply file_safe_raise |].
  intros w r w'. unfold modify. intros [= _ <-] p' _ H. cbn.
  destruct (decide (p' = p)) as [-> | Hne].
  - rewrite lookup_insert_eq. eauto.
  - by rewrite lookup_insert_ne.
Qed.

Lemma file_safe_os_rename dst : file_safe tmp (os_rename tmp dst).
Proof.
  intros w r w'. unfold os_rename.
  destruct (files w !! tmp) as [c|]; [| intros [= _ <-]; apply keeps_files_refl].
  intros [= _ <-] p Hp H. cbn.
  destruct (decide (p = dst)) as [-> | Hne].
  - rewrite lookup_insert_eq. eauto.
  - rewrite lookup_insert_ne by done. by rewrite lookup_delete_ne.
Qed.

Lemma file_safe_sizes_of corp q path : file_safe tmp (sizes_of X corp q path).
Proof.
  unfold sizes_of. apply file_safe_bind; [apply file_safe_gets |].
  intros c. apply file_safe_lift.
Qed.

Lemma file_safe_update_calc_status sh q kw :
  file_safe tmp (update_calc_status X sh q kw).
Proof.
  apply file_safe_same. intros w r w'. unfold update_calc_status.
  destruct (update _ _ _ _) as [st' [[]|e|]]; by intros [= _ <-].
Qed.

Lemma file_safe_add_to_map sh q size st :
  file_safe tmp (add_to_map X sh q size st).
Proof.
  apply file_safe_same. intros w r w'. unfold add_to_map. by intros [= _ <-].
Qed.

End WorkerFiles.

Section WorkerFrame.
Context (X : Externals) (cache_map : CacheMap) (args : InitialArgs).
Hypothesis background_keeps_files :
  ∀ d w p, is_Some (files w !! p) → is_Some (files (background X d w) !! p).
Hypothesis update_keeps_files :
  ∀ sh q kw, file_safe (tmp_of args) (cm_update_calc_status cache_map sh q kw).
Hypothesis add_keeps_files :
  ∀ sh q n st, file_safe (tmp_of args) (cm_add_to_map cache_map sh q n st).

Lemma tmp_of_differs : tmp_of args ≠ cachefile args.
Proof.
  unfold tmp_of. intros Heq. apply (f_equal String.length) in Heq.
  revert Heq. generalize (cachefile args). intros s.
  assert (Hlen : ∀ a b, String.length (a +:+ b) = (String.length a + String.length b)%nat).
  { intros a b. induction a as [|c a IH]; [done |]. simpl. by rewrite IH. }
  rewrite Hlen. simpl. lia.
Qed.

Lemma file_safe_progress_loop fuel corp sh q tid d0 n sleeptime :
  file_safe (tmp_of args)
    (progress_loop_with X cache_map fuel args corp sh q tid d0 n sleeptime).
Proof.
  revert n sleeptime. induction fuel as [|fuel IH]; intros n sleeptime;
    cbn [progress_loop_with]; (apply file_safe_bind; [apply file_safe_lift |]);
    intros d; (destruct (negb (cd_finished d)); [| apply file_safe_ret]).
  - apply file_safe_diverge.
  - apply file_safe_bind; [apply file_safe_conc_save |]. intros _.
    apply file_safe_bind; [apply file_safe_os_rename |]. intros _.
    apply file_safe_bind; [by apply file_safe_sleep |]. intros _.
    apply file_safe_bind; [apply file_safe_sizes_of |]. intros [[[fin cs] fs] rs].
    apply file_safe_bind; [apply update_keeps_files |]. intros _.
    apply IH.
Qed.

(** Lines 241-261: what follows the first, partial save. *)
Lemma file_safe_finish fuel tid corp sh q d0 :
  file_safe (tmp_of args)
    (let* d := progress_loop_with X cache_map fuel args corp sh q tid d0 O 1 in
     let* _ := conc_save X d (Some (tmp_of args)) in
     let* _ := os_rename (tmp_of args) (cachefile args) in
     let* (fin, cs, fs, rs) := sizes_of X corp q (cachefile args) in
     let* a := (if negb (is_subcorpus X corp) then lift (compute_ARF X d)
                else ret PyNone) in
     let* _ := cm_update_calc_status cache_map sh q
                 [("finished", fin); ("concsize", cs); ("fullsize", fs);
                  ("relconcsize", rs); ("arf", a); ("task_id", tid)] in
     let* _ := cm_add_to_map cache_map sh q (cd_size d) None in
     ret tt).
Proof.
  apply file_safe_bind; [apply file_safe_progress_loop |]. intros d.
  apply file_safe_bind; [apply file_safe_conc_save |]. intros _.
  apply file_safe_bind; [apply file_safe_os_rename |]. intros _.
  apply file_safe_bind; [apply file_safe_sizes_of |]. intros [[[fin cs] fs] rs].
  apply file_safe_bind;
    [destruct (negb _); [apply file_safe_lift | apply file_safe_ret] |].
  intros a.
  apply file_safe_bind; [apply update_keeps_files |]. intros _.
  apply file_safe_bind; [apply add_keeps_files |]. intros _.
  apply file_safe_ret.
Qed.

Lemma file_safe_compute_and_cache fuel tid corp sh q n :
  file_safe (tmp_of args) (compute_and_cache_with X cache_map fuel tid args corp sh q n).
Proof.
  unfold compute_and_cache_with. destruct (negb _); [| apply file_safe_ret].
  apply file_safe_bind; [apply file_safe_engine_compute |]. intros d0.
  apply file_safe_bind; [by apply file_safe_sleep |]. intros _.
  apply file_safe_bind; [apply file_safe_conc_save |]. intros _.
  apply file_safe_finish.
Qed.

Lemma open_cache_map_pure subc_dirs corpus_name subc_name w r w1 :
  open_cache_map X subc_dirs corpus_name subc_name w = (r, w1) → w1 = w.
Proof.
  unfold open_cache_map, bind, lift, raise, ret.
  destruct (get_Corpus X subc_dirs corpus_name subc_name) as [c|e'|];
    [| by intros [= _ <-] | by intros [= _ <-]].
  destruct (get_mapping X c); by intros [= _ <-].
Qed.

Lemma file_safe_handled (m : M unit) sh q :
  file_safe (tmp_of args) m →
  file_safe (tmp_of args)
    (try_except m (λ _, true)
       (λ e, cm_update_calc_status cache_map sh q
               [("finished", PyBool true); ("error", PyExc e)])).
Proof.
  intros Hm. apply file_safe_try_except; [done |].
  intros e. apply update_keeps_files.
Qed.

Lemma file_safe_ConcCalculation_call fuel tid subc_dirs corpus_name
    subc_name sh q n :
  file_safe (tmp_of args)
    (ConcCalculation_call_with X cache_map fuel tid args subc_dirs corpus_name
                               subc_name sh q n).
Proof.
  intros w r w'. unfold ConcCalculation_call_with.
  destruct (open_cache_map X subc_dirs corpus_name subc_name w)
    as [[corpus_obj|e|] w1] eqn:Hopen;
    apply open_cache_map_pure in Hopen as ->;
    [| intros [= _ <-]; apply keeps_files_refl
     | intros [= _ <-]; apply keeps_files_refl].
  apply file_safe_handled. by apply file_safe_compute_and_cache.
Qed.

End WorkerFrame.

(** C6, as amended.  An exception raised while the corpus is opened or the
    cache map obtained is only logged: the call returns and changes
    nothing.  One raised once the cache map is at hand is handed to
    [cache_map.update_calc_status(subchash, query, finished=True, error=e)],
    and that call, outside any [try], is the end of the worker: the worker
    returns if it returns and raises what it raises.  With the cache map of
    the spec it returns, and the status of [(subchash, query)] then has
    [finished = True] and [error = str(e)]; the handler touches no file.
    However the call ends, the worker has removed no file but its own
    temporary file, which it renames over the cache file; and once the
    first, partial save went through, the cache file is there at the end,
    whatever failed afterwards.  For the files, other processes and the
    cache map are taken not to remove any. *)
Theorem conc_calculation_failure (X : Externals) (cache_map : CacheMap)
    (fuel : nat) (tid : pyval)
    (args : InitialArgs) (subc_dirs : list string) (corpus_name : string)
    (subc_name sh : option string) (query : list string) (samplesize : Z)
    (w : World) :
  (∀ d w0 p, is_Some (files w0 !! p) → is_Some (files (background X d w0) !! p)) →
  (∀ sh' q' kw, file_safe (tmp_of args) (cm_update_calc_status cache_map sh' q' kw)) →
  (∀ sh' q' n st, file_safe (tmp_of args) (cm_add_to_map cache_map sh' q' n st)) →
  let r := ConcCalculation_call_with X cache_map fuel tid args subc_dirs
             corpus_name subc_name sh query samplesize w in
  (∀ e w1, open_cache_map X subc_dirs corpus_name subc_name w = (Raise e, w1) →
     r = (Ok tt, w))
  ∧ (∀ corpus_obj w1 e w2,
       open_cache_map X subc_dirs corpus_name subc_name w = (Ok corpus_obj, w1) →
       compute_and_cache_with X cache_map fuel tid args corpus_obj sh query
                              samplesize w1 = (Raise e, w2) →
       r = cm_update_calc_status cache_map sh query
             [("finished", PyBool true); ("error", PyExc e)] w2
       ∧ (cache_map = spec_cache_map X →
          r.1 = Ok tt ∧ marked e (sh, query) r.2
          ∧ files r.2 = files w2 ∧ elog r.2 = elog w2))
  ∧ (∀ p, p ≠ tmp_of args → is_Some (files w !! p) → is_Some (files r.2 !! p))
  ∧ (∀ corpus_obj d0,
       already_running args = false →
       get_Corpus X subc_dirs corpus_name subc_name = Ok corpus_obj →
       get_mapping X corpus_obj = None →
       compute_conc X corpus_obj query samplesize = Ok d0 →
       conc_save_error X d0 (cachefile args) = None →
       is_Some (files r.2 !! cachefile args)).
Proof.
  intros Hbg Hupd Hadd r. subst r. split_and!.
  - intros e w1 Hopen. unfold ConcCalculation_call_with. rewrite Hopen.
    by apply open_cache_map_pure in Hopen as ->.
  - intros corpus_obj w1 e w2 Hopen Hbody.
    unfold ConcCalculation_call_with. rewrite Hopen.
    unfold try_except. rewrite Hbody. split; [done |].
    intros ->. cbn [cm_update_calc_status spec_cache_map].
    destruct (update_calc_status_marks X sh query e _ w2 (or_intror eq_refl))
      as (w3 & -> & Hm & _ & Hf & Hl).
    done.
  - intros p Hp Hfile.
    destruct (ConcCalculation_call_with X cache_map fuel tid args subc_dirs
                corpus_name subc_name sh query samplesize w) as [r w'] eqn:Hcall.
    by apply (file_safe_ConcCalculation_call X cache_map args Hbg Hupd Hadd
                _ _ _ _ _ _ _ _ _ _ _ Hcall).
  - intros corpus_obj d0 Hrun Hcorp Hmap Hcomp Hsave.
    unfold ConcCalculation_call_with, open_cache_map, bind at 1, lift.
    rewrite Hcorp, Hmap. cbn [ret].
    set (w0 := add_event (EvCompute query) w).
    set (w1 := set_clock (clock w0 + 1) (background X 1 w0)).
    set (w2 := set_files (<[cachefile args := Some d0]> (files w1))
                 (add_event (EvSave (PyStr (cachefile args))) w1)).
    set (handler := λ e, cm_update_calc_status cache_map sh query
                           [("finished", PyBool true); ("error", PyExc e)]).
    pose (rest :=
      let* d := progress_loop_with X cache_map fuel args corpus_obj sh query
                                   tid d0 O 1 in
      let* _ := conc_save X d (Some (tmp_of args)) in
      let* _ := os_rename (tmp_of args) (cachefile args) in
      let* (fin, cs, fs, rs) := sizes_of X corpus_obj query (cachefile args) in
      let* a := (if negb (is_subcorpus X corpus_obj) then lift (compute_ARF X d)
                 else ret PyNone) in
      let* _ := cm_update_calc_status cache_map sh query
                  [("finished", fin); ("concsize", cs); ("fullsize", fs);
                   ("relconcsize", rs); ("arf", a); ("task_id", tid)] in
      let* _ := cm_add_to_map cache_map sh query (cd_size d) None in
      ret tt).
    assert (Hstart : compute_and_cache_with X cache_map fuel tid args corpus_obj
                       sh query samplesize w = rest w2).
    { unfold compute_and_cache_with. rewrite Hrun. cbn [negb].
      unfold bind at 1. unfold engine_compute, bind at 1, modify, lift.
      rewrite Hcomp. fold w0.
      unfold bind at 1. unfold sleep, modify. fold w1.
      unfold bind at 1. unfold conc_save, bind at 1, modify.
      rewrite Hsave. done. }
    assert (Htry : try_except (compute_and_cache_with X cache_map fuel tid args
                                 corpus_obj sh query samplesize)
                              (λ _, true) handler w
                   = try_except rest (λ _, true) handler w2).
    { unfold try_except. by rewrite Hstart. }
    rewrite Htry.
    destruct (try_except rest (λ _, true) handler w2) as [r w'] eqn:Hcall.
    cbn [snd].
    apply (file_safe_handled cache_map args Hupd rest sh query
             (file_safe_finish X cache_map args Hbg Hupd Hadd fuel tid
                corpus_obj sh query d0)
             _ _ _ Hcall).
    + apply not_eq_sym, tmp_of_differs.
    + subst w2. cbn. rewrite lookup_insert_eq. eauto.
Qed.

(** C6 fails as stated, twice.  When the corpus cannot be opened the
    exception is swallowed and nothing is recorded: the status stays
    unfinished and without an error.  And when the cache map itself fails,
    the exception of the handler's [update_calc_status] leaves the worker
    and reaches the facade. *)
Lemma conc_calculation_claim_refuted :
  let w := one_entry_world ["q1"] ten_rows_so_far in
  let args := mk_InitialArgs "/var/cache/a.conc" false in
  let r := ConcCalculation_call missing_corpus 10 (PyStr "T1") args []
             "syn2015" None None ["q1"] 0 w in
  let r' := ConcCalculation_call_with failing_engine unavailable_cache 10
              (PyStr "T1") args [] "syn2015" None None ["q1"] 0 w in
  (open_cache_map missing_corpus [] "syn2015" None w
   = (Raise (mk_exn (OtherException "CorpusNotFound") "no such corpus"), w)
   ∧ r = (Ok tt, w)
   ∧ cmap r.2 !! (None, ["q1"]) ≫= e_status = Some ten_rows_so_far
   ∧ finished ten_rows_so_far = PyBool false
   ∧ error ten_rows_so_far = PyNone)
  ∧ r'.1 = Raise (mk_exn (OtherException "ConnectionError") "cache backend is down").
Proof. vm_compute. split_and!; reflexivity. Qed.

Lemma conc_calculation_failure_witness :
  let w := one_entry_world ["q1"] ten_rows_so_far in
  let e := mk_exn (OtherException "RuntimeError") "query failed" in
  let r := ConcCalculation_call failing_engine 10 (PyStr "T1")
             (mk_InitialArgs "/var/cache/a.conc" false) [] "syn2015" None None
             ["q1"] 0 w in
  r.1 = Ok tt ∧ marked e (None, ["q1"]) r.2
  ∧ is_Some (files r.2 !! "/var/cache/a.conc").
Proof.
  intros w e r.
  destruct (conc_calculation_failure failing_engine
              (spec_cache_map failing_engine) 10 (PyStr "T1")
              (mk_InitialArgs "/var/cache/a.conc" false) [] "syn2015" None None
              ["q1"] 0 w) as (_ & Hrec & Hkeep & _).
  - intros d w0 p Hp. exact Hp.
  - intros sh' q' kw. apply file_safe_update_calc_status.
  - intros sh' q' n st. apply file_safe_add_to_map.
  - destruct (Hrec (mk_Corpus "syn2015" None) w e (add_event (EvCompute ["q1"]) w))
      as (_ & Hspec).
    + reflexivity.
    + vm_compute. reflexivity.
    + destruct (Hspec eq_refl) as (Hr & Hm & _).
      split; [exact Hr |]. split; [exact Hm |].
      apply Hkeep; [vm_compute; discriminate | vm_compute; eauto].
Defined.

(** * Further properties of CalcStatus *)

(** [test_error], line 62-69.  For a record whose [last_upd] is a number,
    the test reports a failure exactly when [error] is set, or the record
    is unfinished and more than [time_limit] seconds have passed since
    [last_upd]; the failure is a [CalcStatusException], carrying the stored
    error when there is one.  A finished record never times out. *)
Theorem test_error_reports (s : CalcStatus) (limit now lu : Z) :
  py_num (last_upd s) = Some lu →
  ((∃ e, test_error s limit now = Ok (Some e))
   ↔ error s ≠ PyNone
     ∨ (py_truthy (finished s) = false ∧ 10 * limit < now - 10 * lu))
  ∧ (test_error s limit now = Ok None
     ∨ ∃ e, test_error s limit now = Ok (Some e)
            ∧ exn_cls e = CalcStatusException
            ∧ (error s ≠ PyNone → exn_msg e = py_str (error s))).
Proof.
  intros Hlu. unfold test_error. rewrite Hlu.
  destruct (error s) eqn:Herr;
    try (split; [split; [intros _; by left | eauto] | right; eauto]).
  destruct (py_truthy (finished s)) eqn:Hfin; simpl.
  - split; [| by left]. split; [intros [e He]; done |].
    intros [? | [? _]]; done.
  - destruct (Z.ltb_spec (10 * limit) (now - 10 * lu)).
    + split; [split; [intros _; by right | eauto] |].
      right. eexists. split_and!; [done | done | done].
    + split; [| by left]. split; [intros [e He]; done |].
      intros [? | [_ ?]]; [done | lia].
Qed.

Lemma test_error_reports_witness :
  ∃ e, test_error (status_at_200 (PyBool false) (PyInt 0) PyNone) 300 6000
       = Ok (Some e).
Proof.
  apply (test_error_reports (status_at_200 (PyBool false) (PyInt 0) PyNone)
           300 6000 200 eq_refl).
  right. split; [reflexivity | lia].
Defined.

(** [update] and [test_error] together, line 62-82.  Right after a call of
    [update] that returned and left [error] unset, and for as long as
    [time_limit - 1] seconds afterwards, the record does not count as
    stalled. *)
Theorem updated_record_is_not_stalled (ia : list string) (s s' : CalcStatus)
    (kw : list (string * pyval)) (limit now now' : Z) :
  update ia now kw s = (s', Ok tt) →
  error s' = PyNone →
  0 ≤ now ≤ now' →
  now' - now ≤ 10 * (limit - 1) →
  test_error s' limit now' = Ok None.
Proof.
  unfold update. intros Hu Herr Hnow Hlate.
  destruct (bool_decide ("self" ∈ kw.*1)); [done |].
  destruct (update_items ia kw s) as [s1 [e|]]; [done |].
  injection Hu as <-.
  unfold test_error. rewrite Herr.
  destruct (negb _); [| done].
  rewrite last_upd_set_field_eq. simpl. unfold int_time.
  pose proof (Z.quot_rem' now 10) as Hq.
  pose proof (Z.rem_bound_pos now 10 ltac:(lia) ltac:(lia)) as Hr.
  destruct (Z.ltb_spec (10 * limit) (now' - 10 * (now ÷ 10))); [lia | done].
Qed.

Lemma updated_record_is_not_stalled_witness :
  test_error (update (interp_attrs quiet) 2059 [("concsize", PyInt 5)]
                (status_at_200 (PyBool false) (PyInt 0) PyNone)).1 300 5000
  = Ok None.
Proof.
  eapply (updated_record_is_not_stalled (interp_attrs quiet)
            (status_at_200 (PyBool false) (PyInt 0) PyNone) _
            [("concsize", PyInt 5)] 300 2059 5000).
  - reflexivity.
  - reflexivity.
  - lia.
  - lia.
Defined.

(** [has_some_result], line 71-72, for [minsize >= 1]: the result is truthy
    exactly when [concsize] is a number not below [minsize]; whether the
    record is finished plays no part. *)
Theorem has_some_result_rows (s : CalcStatus) (minsize : Z) :
  1 ≤ minsize →
  (∃ v, has_some_result s minsize = Ok v ∧ py_truthy v = true)
  ↔ ∃ n, py_num (concsize s) = Some n ∧ minsize ≤ n.
Proof.
  intros Hm. unfold has_some_result.
  destruct (Z.eqb_spec minsize (-1)) as [? | _]; [lia |]. cbn [py_truthy].
  destruct (concsize s) as [|[]|z|str|e]; simpl.
  - split; [intros (v & [= <-] & Hv); done | intros (n & Hn & _); done].
  - unfold py_ge. simpl. split.
    + intros (v & [= <-] & Hv). simpl in Hv. apply Z.leb_le in Hv.
      exists 1. done.
    + intros (n & [= <-] & Hn). eexists. split; [done |]. simpl.
      by apply Z.leb_le.
  - split; [intros (v & [= <-] & Hv); done | intros (n & [= <-] & Hn); lia].
  - destruct (Z.eqb_spec z 0) as [-> | Hz]; simpl.
    + split; [intros (v & [= <-] & Hv); done | intros (n & [= <-] & Hn); lia].
    + unfold py_ge. simpl. split.
      * intros (v & [= <-] & Hv). exists z. split; [done |].
        simpl in Hv. by apply Z.leb_le in Hv.
      * intros (n & [= <-] & Hn). eexists. split; [done |].
        simpl. by apply Z.leb_le.
  - destruct (String.eqb str "") eqn:Hstr; simpl.
    + split; [| intros (n & Hn & _); done].
      intros (v & [= <-] & Hv). simpl in Hv. rewrite Hstr in Hv. done.
    + split; [intros (v & Hv & _); done | intros (n & Hn & _); done].
  - split; [intros (v & Hv & _); done | intros (n & Hn & _); done].
Qed.

Lemma has_some_result_rows_witness :
  ∃ v, has_some_result (status_at_200 (PyBool false) (PyInt 10) PyNone) 10 = Ok v
       ∧ py_truthy v = true.
Proof.
  apply (has_some_result_rows (status_at_200 (PyBool false) (PyInt 10) PyNone) 10).
  - lia.
  - exists 10. split; [reflexivity | lia].
Defined.

(** [has_some_result], line 71-72, for [minsize = -1]: a finished record is
    accepted, and so is an unfinished one that already has rows, because
    the second disjunct compares [concsize] with -1. *)
Theorem has_some_result_whole (s : CalcStatus) :
  (∃ v, has_some_result s (-1) = Ok v ∧ py_truthy v = true)
  ↔ py_truthy (finished s) = true
    ∨ ∃ n, py_num (concsize s) = Some n ∧ -1 ≤ n ∧ n ≠ 0.
Proof.
  unfold has_some_result. simpl.
  destruct (py_truthy (finished s)) eqn:Hfin.
  { split; [by left | eauto]. }
  destruct (concsize s) as [|[]|z|str|e]; simpl.
  - split; [intros (v & [= <-] & Hv); done |].
    intros [? | (n & Hn & _)]; done.
  - split; [intros _; right; exists 1; split; [done | lia] | eauto].
  - split; [intros (v & [= <-] & Hv); done |].
    intros [? | (n & [= <-] & Hn)]; [done | lia].
  - destruct (Z.eqb_spec z 0) as [-> | Hz]; simpl.
    + split; [intros (v & [= <-] & Hv); done |].
      intros [? | (n & [= <-] & Hn)]; [done | lia].
    + unfold py_ge. simpl. split.
      * intros (v & [= <-] & Hv). right. exists z. split; [done |].
        simpl in Hv. apply Z.leb_le in Hv. lia.
      * intros [? | (n & [= <-] & Hn)]; [done |]. eexists. split; [done |].
        simpl. apply Z.leb_le. lia.
  - destruct (String.eqb str "") eqn:Hstr; simpl.
    + split; [| intros [? | (n & Hn & _)]; done].
      intros (v & [= <-] & Hv). simpl in Hv. rewrite Hstr in Hv. done.
    + split; [intros (v & Hv & _); done | intros [? | (n & Hn & _)]; done].
  - split; [intros (v & Hv & _); done | intros [? | (n & Hn & _)]; done].
Qed.



Section UpdateFrame.

Ltac case_attr k :=
  match goal with
  | |- context [String.eqb k ?c] =>
      destruct (String.eqb_spec k c) as [-> | ?]
  end.

Lemma getattr_setattr_eq (s : CalcStatus) (k : string) (v : pyval) :
  getattr (set_field s k v) k = Some v.
Proof.
  destruct s. unfold set_field, getattr.
  repeat (case_attr k; [reflexivity |]).
  simpl. by rewrite String.eqb_refl.
Qed.

Lemma find_filter_ne (k k' : string) (l : list (string * pyval)) :
  k' ≠ k →
  List.find (λ kv, String.eqb kv.1 k') (filter (λ kv, kv.1 ≠ k) l)
  = List.find (λ kv, String.eqb kv.1 k') l.
Proof.
  intros Hne. induction l as [|[a b] l IH]; [done |].
  rewrite filter_cons. simpl. destruct (decide (a ≠ k)) as [Ha | Ha]; simpl.
  - by rewrite IH.
  - apply dec_stable in Ha. subst a.
    destruct (String.eqb_spec k k'); [congruence | done].
Qed.

Lemma getattr_setattr_ne (s : CalcStatus) (k k' : string) (v : pyval) :
  k' ≠ k → getattr (set_field s k v) k' = getattr s k'.
Proof.
  intros Hne. destruct s. unfold set_field.
  repeat (case_attr k;
          [unfold getattr;
           repeat (case_attr k'; [reflexivity || congruence |]); reflexivity |]).
  unfold getattr.
  repeat (case_attr k'; [reflexivity |]).
  simpl. destruct (String.eqb_spec k k'); [congruence |].
  by rewrite find_filter_ne.
Qed.

Lemma assignable_not_self (kw : list (string * pyval)) :
  (∀ k, k ∈ kw.*1 → assignable k = true) → "self" ∉ kw.*1.
Proof. intros Hall Hin. by specialize (Hall "self" Hin). Qed.

Lemma update_items_returns (ia : list string) (kw : list (string * pyval))
    (s : CalcStatus) :
  (∀ k, k ∈ kw.*1 → hasattr ia s k = true ∧ assignable k = true) →
  (update_items ia kw s).2 = None.
Proof.
  intros Hall. apply update_items_spec; [| done].
  apply assignable_not_self. intros k Hk. by apply Hall.
Qed.

Lemma update_items_getattr (ia : list string) (kw : list (string * pyval))
    (s : CalcStatus) (k : string) :
  NoDup kw.*1 →
  (update_items ia kw s).2 = None →
  getattr (update_items ia kw s).1 k
  = match List.find (λ kv, String.eqb kv.1 k) kw with
    | Some kv => Some (norm_exc kv.2)
    | None => getattr s k
    end.
Proof.
  revert s. induction kw as [|[k0 v0] kw IH]; intros s Hnd Hok; simpl in *; [done |].
  apply NoDup_cons in Hnd as [Hnotin Hnd].
  destruct (hasattr ia s k0); [| done].
  destruct (setattr s k0 (norm_exc v0)) as [e | s'] eqn:Hset; [done |].
  assert (s' = set_field s k0 (norm_exc v0)) as ->.
  { unfold setattr in Hset.
    repeat (match type of Hset with
            | context [String.eqb k0 ?c] => destruct (String.eqb k0 c); [done |]
            end).
    by injection Hset as <-. }
  rewrite IH by done.
  destruct (String.eqb_spec k0 k) as [-> | Hne].
  - destruct (List.find _ kw) as [[k1 v1]|] eqn:Hfind.
    + apply find_some in Hfind as [Hin Heq]. simpl in Heq.
      apply String.eqb_eq in Heq. subst k1. exfalso. apply Hnotin.
      apply list_elem_of_fmap. exists (k, v1). split; [done |].
      by apply list_elem_of_In.
    + apply getattr_setattr_eq.
  - destruct (List.find _ kw); [done |]. by apply getattr_setattr_ne.
Qed.

(** A call of [update] whose keywords are attributes that can be assigned:
    it returns, and the instance dictionary is as the keywords say. *)
Lemma update_known (ia : list string) (s : CalcStatus)
    (kw : list (string * pyval)) (now : Z) :
  NoDup kw.*1 →
  (∀ k, k ∈ kw.*1 → hasattr ia s k = true ∧ assignable k = true) →
  ∃ s', update ia now kw s = (s', Ok tt)
        ∧ ∀ k, getattr s' k
               = if String.eqb k "last_upd" then Some (PyInt (int_time now))
                 else match List.find (λ kv, String.eqb kv.1 k) kw with
                      | Some kv => Some (norm_exc kv.2)
                      | None => getattr s k
                      end.
Proof.
  intros Hnd Hall. unfold update.
  rewrite bool_decide_false
    by (apply assignable_not_self; intros k Hk; by apply Hall).
  pose proof (update_items_returns ia kw s Hall) as Hok.
  pose proof (update_items_getattr ia kw s) as Hget.
  destruct (update_items ia kw s) as [s1 o]. simpl in Hok. subst o.
  eexists. split; [done |]. intros k.
  destruct (String.eqb_spec k "last_upd") as [-> | Hne].
  - apply getattr_setattr_eq.
  - rewrite getattr_setattr_ne by done. by apply Hget.
Qed.

End UpdateFrame.

(** [update], line 74-82.  A call whose keywords are all attributes of the
    object, be it through the instance, the class or [object], and none of
    them [self], [__class__], [__dict__] or [__weakref__], returns; and
    afterwards [last_upd] is the current second, every other keyword holds
    in the instance the value given for it (an exception as its text), and
    every instance attribute not named is as it was. *)
Theorem update_sets_exactly (ia : list string) (s : CalcStatus)
    (kw : list (string * pyval)) (now : Z) :
  NoDup kw.*1 →
  (∀ k, k ∈ kw.*1 → hasattr ia s k = true ∧ assignable k = true) →
  (update ia now kw s).2 = Ok tt
  ∧ ∀ k, getattr (update ia now kw s).1 k
         = if String.eqb k "last_upd" then Some (PyInt (int_time now))
           else match List.find (λ kv, String.eqb kv.1 k) kw with
                | Some kv => Some (norm_exc kv.2)
                | None => getattr s k
                end.
Proof.
  intros Hnd Hall.
  destruct (update_known ia s kw now Hnd Hall) as (s' & -> & Hget).
  done.
Qed.

Lemma update_sets_exactly_witness :
  let s := status_at_200 (PyBool false) (PyInt 0) PyNone in
  let r := update (interp_attrs quiet) 3000
             [("concsize", PyInt 7); ("__doc__", PyStr "partial");
              ("error", PyExc (mk_exn OSError "disk full"))] s in
  r.2 = Ok tt
  ∧ getattr r.1 "error" = Some (PyStr "disk full")
  ∧ getattr r.1 "__doc__" = Some (PyStr "partial")
  ∧ getattr r.1 "task_id" = Some (PyStr "T1").
Proof.
  intros s r.
  destruct (update_sets_exactly (interp_attrs quiet) s
              [("concsize", PyInt 7); ("__doc__", PyStr "partial");
               ("error", PyExc (mk_exn OSError "disk full"))]
              3000) as [Hr Hg].
  - apply (bool_decide_unpack _). vm_compute. exact I.
  - intros k Hk. simpl in Hk.
    repeat (apply elem_of_cons in Hk as [-> | Hk]; [split; reflexivity |]).
    inversion Hk.
  - split; [exact Hr |].
    split; [exact (Hg "error") |].
    split; [exact (Hg "__doc__") | exact (Hg "task_id")].
Defined.

(** * Further properties of the wait protocol and of cancellation *)

(** [_contains_shuffle_seq], line 40-54.  The test holds exactly of the
    sequences with two adjacent ['f'] operations (an operation between two
    shuffles resets the scan), so it survives any extension of the sequence
    at either end. *)
Theorem contains_shuffle_seq_adjacent (q : list string) :
  (_contains_shuffle_seq q = true ↔ ∃ l1 l2, q = l1 ++ "f" :: "f" :: l2)
  ∧ (_contains_shuffle_seq q = true →
     ∀ pre post, _contains_shuffle_seq (pre ++ q ++ post) = true)
  ∧ (∀ op, op ≠ "f" → _contains_shuffle_seq ["f"; op; "f"] = false).
Proof.
  split_and!.
  - apply contains_shuffle_seq_spec.
  - intros (l1 & l2 & ->)%contains_shuffle_seq_spec pre post.
    apply contains_shuffle_seq_spec. exists (pre ++ l1), (l2 ++ post).
    by rewrite <- !app_assoc.
  - intros op Hop. unfold _contains_shuffle_seq. simpl.
    by destruct (String.eqb_spec op "f").
Qed.

(** [del_silent], line 57-64.  The call raises only for a path with an
    embedded NUL: the [ValueError] of [os.remove] is not among the classes
    it catches.  In every other case it returns, also when the path is None
    or names no file.  Of the world only the file of the path can change:
    it is gone after a call that returns, unless the operating system
    refuses to unlink it (that [OSError] is swallowed and the file
    stays). *)
Theorem del_silent_outcome (X : Externals) (path : option string) (w : World) :
  let r := del_silent X path w in
  (r.1 = Ok tt ↔ ∀ p, path = Some p → has_nul p = false)
  ∧ (∀ e, r.1 = Raise e → exn_cls e = OtherException "ValueError" ∧ r.2 = w)
  ∧ (r.1 = Ok tt ∨ ∃ e, r.1 = Raise e)
  ∧ cmap r.2 = cmap w ∧ clock r.2 = clock w
  ∧ revoked r.2 = revoked w ∧ elog r.2 = elog w
  ∧ (∀ p', path ≠ Some p' → files r.2 !! p' = files w !! p')
  ∧ (∀ p, path = Some p → r.1 = Ok tt → remove_denied X p = false →
          files r.2 !! p = None)
  ∧ (∀ p, path = Some p → remove_denied X p = true → files r.2 = files w).
Proof.
  intros r. subst r. rewrite del_silent_cases.
  destruct path as [p|];
    [destruct (has_nul p) eqn:Hnul; [| destruct (remove_denied X p) eqn:Hden] |];
    cbn [fst snd]; split_and!;
    try done;
    try (by left); try (right; by eauto);
    try (intros e [= <-]; done);
    try (split; [done |]; intros H; specialize (H _ eq_refl); congruence);
    try (split; [| done]; intros _ ? [= <-]; done);
    try (intros ? [= <-]; congruence);
    try (intros ? [= <-] ? ?; congruence);
    try (intros ? Hne; cbn; apply lookup_delete_ne; congruence);
    try (intros ? [= <-] _ _; cbn; apply lookup_delete_eq).
Qed.

(** [cancel_async_task], line 67-78.  When the revoke call returns or fails
    with an [IOError] and the cache path has no NUL in it, the call returns
    having removed exactly the entry of [(subchash, q)] and at most its
    cache file, which stays only if the operating system refuses to unlink
    it: every other entry and file, the clock and the engine log are left
    alone; with no entry for the key nothing changes. *)
Theorem cancel_async_task_frame (X : Externals) (sh : option string)
    (q : list string) (w : World) :
  (∀ st e, cmap w !! (sh, q) ≫= e_status = Some st →
           py_truthy (task_id st) = true →
           revoke X (task_id st) w = Some e → exn_cls e = OSError) →
  (∀ p, e_path <$> cmap w !! (sh, q) = Some p → has_nul p = false) →
  ∃ w', cancel_async_task X sh q w = (Ok tt, w')
        ∧ cmap w' = delete (sh, q) (cmap w)
        ∧ files w' = match e_path <$> cmap w !! (sh, q) with
                     | Some p => if remove_denied X p then files w
                                 else delete p (files w)
                     | None => files w
                     end
        ∧ clock w' = clock w ∧ elog w' = elog w
        ∧ (cmap w !! (sh, q) = None → cmap w' = cmap w ∧ files w' = files w).
Proof.
  intros Hrev Hnul.
  destruct (cancel_after_revoke X sh q w Hrev)
    as (w1 & Hc1 & Hf1 & Hk1 & Hl1 & ->).
  rewrite del_silent_cases.
  destruct (e_path <$> cmap w !! (sh, q)) as [p|] eqn:Hp.
  - rewrite (Hnul p eq_refl).
    assert (Hsome : cmap w !! (sh, q) ≠ None).
    { intros Hn. by rewrite Hn in Hp. }
    destruct (remove_denied X p); eexists; (split; [done |]); cbn;
      rewrite ?Hf1; split_and!; done.
  - exists w1. split; [done |]. split_and!; try done.
    intros Hn. split; [| done]. rewrite Hc1. by apply delete_id.
Qed.

Lemma cancel_async_task_frame_witness :
  let w := one_entry_world ["q1"] ten_rows_so_far in
  ∃ w', cancel_async_task unreachable_facade None ["q1"] w = (Ok tt, w')
        ∧ cmap w' = delete (None, ["q1"]) (cmap w)
        ∧ files w' = delete "/var/cache/a.conc" (files w)
        ∧ clock w' = clock w.
Proof.
  intros w.
  destruct (cancel_async_task_frame unreachable_facade None ["q1"] w)
    as (w' & Hc & Hm & Hf & Hk & _).
  - intros st e _ _ Hr. vm_compute in Hr. by injection Hr as <-.
  - intros p Hp. vm_compute in Hp. by injection Hp as <-.
  - exists w'. split; [exact Hc |]. split; [exact Hm |].
    split; [exact Hf | exact Hk].
Defined.

Section WaitBound.
Context (X : Externals).

Lemma poll_bound (minsize i : Z) :
  1 ≤ i → i * (i - 1) < 2 * (10 * time_limit minsize) →
  i * (i + 1) ≤ 2 * wait_bound minsize.
Proof.
  unfold time_limit, wait_bound. destruct (0 <=? minsize); intros Hi Hlt.
  - assert (i ≤ 10) by nia. nia.
  - assert (i ≤ 24) by nia. nia.
Qed.

Lemma wait_loop_bound fuel q sh minsize t0 i fin w r w' :
  1 ≤ i → 2 * (clock w - t0) = i * (i - 1) →
  clock w - t0 ≤ wait_bound minsize →
  wait_loop X fuel q sh minsize t0 i (clock w) fin w = (r, w') →
  clock w ≤ clock w' ∧ clock w' - t0 ≤ wait_bound minsize.
Proof.
  revert i fin w. induction fuel as [|fuel IH]; intros i fin w Hi Hsum Hb;
    cbn [wait_loop].
  - destruct (negb (py_truthy fin) && _); intros [= _ <-]; lia.
  - destruct (negb (py_truthy fin)); cbn [andb]; [| intros [= _ <-]; lia].
    destruct (Z.ltb_spec (clock w - t0) (10 * time_limit minsize)) as [Hlt | _];
      [| intros [= _ <-]; lia].
    pose proof (poll_bound minsize i Hi ltac:(lia)) as Hpb.
    replace (i * (i + 1)) with (i * (i - 1) + 2 * i) in Hpb by ring.
    assert (Hnext : (i + 1) * (i + 1 - 1) = i * (i - 1) + 2 * i) by ring.
    unfold bind at 1. unfold sleep, modify. unfold bind at 1. unfold gets.
    set (w1 := set_clock (clock w + i) (background X i w)).
    assert (Hc1 : clock w1 = clock w + i) by done.
    unfold bind at 1.
    destruct (_check_result X q sh minsize w1) as [[[hr fin']|e|] w2] eqn:Hchk;
      apply check_result_clock in Hchk.
    + intros Hloop. rewrite <- Hchk in Hloop.
      apply IH in Hloop; rewrite ?Hchk, ?Hc1 in *; [lia | lia | lia | lia].
    + intros [= _ <-]. rewrite Hchk, Hc1. lia.
    + intros [= _ <-]. rewrite Hchk, Hc1. lia.
Qed.

Lemma wait_for_conc_clock q sh minsize w r w' :
  wait_for_conc X q sh minsize w = (r, w') →
  clock w ≤ clock w' ≤ clock w + wait_bound minsize.
Proof.
  assert (Hwb : 0 ≤ wait_bound minsize)
    by (unfold wait_bound; destruct (0 <=? minsize); lia).
  unfold wait_for_conc. unfold bind at 1. unfold gets. unfold bind at 1.
  destruct (_check_result X q sh minsize w) as [[[hr fin]|e|] w1] eqn:Hchk;
    apply check_result_clock in Hchk;
    [| intros [= _ <-]; lia | intros [= _ <-]; lia].
  unfold bind at 1. rewrite <- Hchk.
  destruct (wait_loop X _ q sh minsize (clock w1) 1 (clock w1) fin w1)
    as [[fin'|e|] w2] eqn:Hloop;
    apply wait_loop_bound in Hloop; try lia;
    [| intros [= _ <-]; lia | intros [= _ <-]; lia].
  unfold bind, cache_file_path, gets, os_path_isfile, del_entry, modify, ret.
  destruct (e_path <$> cmap w2 !! (sh, q)); [| intros [= _ <-]; lia].
  destruct (negb _); [| intros [= _ <-]; lia].
  destruct (py_truthy fin'); intros [= _ <-]; simpl; lia.
Qed.

End WaitBound.

(** [wait_for_conc], line 81-105.  Whatever the cache holds and whatever
    other processes do, the call comes back (with a verdict or an
    exception) having slept at most 5.5 s when [minsize >= 0] and at most
    30 s otherwise; the clock of the model is advanced by the sleeps
    only. *)
Theorem wait_for_conc_time_bound (X : Externals) (q : list string)
    (sh : option string) (minsize : Z) (w : World) :
  let r := wait_for_conc X q sh minsize w in
  r.1 ≠ Diverge ∧ clock w ≤ clock r.2 ≤ clock w + wait_bound minsize.
Proof.
  intros r. split; [apply wait_for_conc_halts |]. subst r.
  destruct (wait_for_conc X q sh minsize w) as [r w'] eqn:Hw.
  by apply wait_for_conc_clock in Hw.
Qed.

(** [wait_for_conc], line 101-104.  A finished entry whose cache file is
    missing is a mismatch between map and storage: the call answers False
    without sleeping and removes exactly that entry. *)
Theorem wait_for_conc_mismatch (X : Externals) (q : list string)
    (sh : option string) (minsize : Z) (w : World) (e : Entry) (st : CalcStatus) :
  cmap w !! (sh, q) = Some e →
  e_status e = Some st →
  error st = PyNone →
  py_truthy (finished st) = true →
  size_or_none (concsize st) →
  files w !! e_path e = None →
  wait_for_conc X q sh minsize w
  = (Ok false, set_cmap (delete (sh, q) (cmap w)) w).
Proof.
  intros He Hst Herr Hfin Hsize Hfile.
  destruct (has_some_result_returns st minsize Hsize) as [r Hr].
  unfold wait_for_conc. unfold bind at 1. unfold gets. unfold bind at 1.
  erewrite check_result_ok;
    [| by rewrite He | by apply test_error_finished | done].
  unfold bind at 1. rewrite wait_loop_leaves by (by rewrite Hfin).
  unfold bind, cache_file_path, gets, os_path_isfile, del_entry, modify, ret.
  rewrite He. simpl. rewrite Hfile.
  rewrite bool_decide_false by (intros [? ?]; done). simpl. by rewrite Hfin.
Qed.

Lemma wait_for_conc_mismatch_witness :
  let st := status_at_200 (PyBool true) (PyInt 10) PyNone in
  let w := mk_World (<[(None, ["q1"]) := mk_Entry "/var/cache/gone.conc" 10 (Some st)]> ∅)
                    ∅ 2050 [] [] in
  wait_for_conc quiet ["q1"] None 0 w
  = (Ok false, set_cmap (delete (None, ["q1"]) (cmap w)) w).
Proof.
  intros st w.
  apply (wait_for_conc_mismatch quiet ["q1"] None 0 w
           (mk_Entry "/var/cache/gone.conc" 10 (Some st)) st).
  - vm_compute. reflexivity.
  - reflexivity.
  - reflexivity.
  - reflexivity.
  - right. vm_compute. eauto.
  - reflexivity.
Defined.

(** [_check_result], line 108-132.  A poll that returns changes nothing.
    A poll that raises because of the status (it is missing, it carries an
    error, or the calculation stalled) has first removed every entry with
    the same base query and no other; the exception is a
    [ConcCalculationStatusException] exactly when the status is missing. *)
Theorem check_result_evicts (X : Externals) (q : list string)
    (sh : option string) (minsize : Z) (w w' : World) (r : result (bool * pyval)) :
  _check_result X q sh minsize w = (r, w') →
  match r with
  | Ok _ => w' = w
  | Raise e =>
      (exn_cls e = TypeError ∧ w' = w)
      ∨ ((exn_cls e = ConcCalculationStatusException
          ↔ cmap w !! (sh, q) ≫= e_status = None)
         ∧ (exn_cls e = ConcCalculationStatusException
            ∨ exn_cls e = CalcStatusException)
         ∧ (∀ k, same_base sh q k → cmap w' !! k = None)
         ∧ (∀ k, ¬ same_base sh q k → cmap w' !! k = cmap w !! k)
         ∧ files w' = files w)
  | Diverge => False
  end.
Proof.
  assert (Hev : ∀ k,
    (same_base sh q k → cmap (del_full_entry sh q w).2 !! k = None)
    ∧ (¬ same_base sh q k → cmap (del_full_entry sh q w).2 !! k = cmap w !! k)).
  { intros k. unfold del_full_entry, modify. simpl. split; intros Hk.
    - apply map_lookup_filter_None. right. intros e _ Hn. by apply Hn.
    - destruct (cmap w !! k) as [e|] eqn:He.
      + by apply map_lookup_filter_Some.
      + apply map_lookup_filter_None. by left. }
  unfold _check_result, bind, get_calc_status, gets, lift, raise, ret.
  destruct (cmap w !! (sh, q) ≫= e_status) as [st|] eqn:Hst.
  - pose proof (test_error_halts st (TASK_TIME_LIMIT X) (clock w)) as Hh.
    unfold test_error in *.
    destruct (error st) eqn:Herr.
    + destruct (negb (py_truthy (finished st))).
      * destruct (py_num (last_upd st)) as [lu|].
        -- destruct (10 * TASK_TIME_LIMIT X <? clock w - 10 * lu).
           ++ intros [= <- <-]. right. split_and!; try done; try apply Hev.
              by right.
           ++ pose proof (has_some_result_halts st minsize) as Hh2.
              unfold has_some_result in *.
              destruct (py_truthy (if minsize =? -1 then _ else _));
                [by intros [= <- <-] |].
              destruct (py_truthy (concsize st)); [| by intros [= <- <-]].
              unfold py_ge in *. destruct (py_num (concsize st)); simpl;
                intros [= <- <-]; [done | by left].
        -- intros [= <- <-]. by left.
      * pose proof (has_some_result_halts st minsize) as Hh2.
        unfold has_some_result in *.
        destruct (py_truthy (if minsize =? -1 then _ else _));
          [by intros [= <- <-] |].
        destruct (py_truthy (concsize st)); [| by intros [= <- <-]].
        unfold py_ge in *. destruct (py_num (concsize st)); simpl;
          intros [= <- <-]; [done | by left].
    + intros [= <- <-]. right. split_and!; try done; try apply Hev. by right.
    + intros [= <- <-]. right. split_and!; try done; try apply Hev. by right.
    + intros [= <- <-]. right. split_and!; try done; try apply Hev. by right.
    + intros [= <- <-]. right. split_and!; try done; try apply Hev. by right.
  - intros [= <- <-]. right. split_and!; try done; try apply Hev. by left.
Qed.

Lemma check_result_evicts_witness :
  let st := status_at_200 (PyBool true) (PyInt 0) (PyStr "engine failure") in
  let w := one_entry_world ["q1"; "r100"] st in
  cmap (_check_result quiet ["q1"; "r100"] None 0 w).2 !! (None, ["q1"; "r100"])
  = None.
Proof.
  intros st w.
  pose proof (check_result_evicts quiet ["q1"; "r100"] None 0 w _ _
                (surjective_pairing _)) as H.
  change (_check_result quiet ["q1"; "r100"] None 0 w).1
    with (@Raise (bool * pyval) (mk_exn CalcStatusException "engine failure")) in H.
  destruct H as [[Hc _] | (_ & _ & Hgone & _)]; [discriminate Hc |].
  apply Hgone. split; reflexivity.
Defined.

(** * Further properties of the resolver *)

Section Resolver.
Context (X : Externals).

Lemma search_none corp sh q minsize cands w :
  (∀ i, i ∈ cands → cmap w !! (sh, take i q) = None) →
  search X corp sh q minsize cands w = (Ok (O, EmptyConc corp), w).
Proof.
  induction cands as [|j rest IH]; intros Hnone; [done |].
  rewrite search_skip by (apply Hnone; by left).
  apply IH. intros i Hi. apply Hnone. by right.
Qed.

Lemma search_skip_app corp sh q minsize pre rest w :
  (∀ i, i ∈ pre → cmap w !! (sh, take i q) = None) →
  search X corp sh q minsize (pre ++ rest) w = search X corp sh q minsize rest w.
Proof.
  induction pre as [|j pre IH]; intros Hnone; [done |].
  simpl app. rewrite search_skip by (apply Hnone; by left).
  apply IH. intros i Hi. apply Hnone. by right.
Qed.

Lemma range_down_split (n i : nat) :
  (i ≤ n)%nat →
  ∃ pre, range_down n = pre ++ range_down i ∧ ∀ j, j ∈ pre → (i < j ≤ n)%nat.
Proof.
  induction n as [|n IH]; intros Hi.
  - exists []. replace i with O by lia. split; [done |]. intros j Hj. inversion Hj.
  - destruct (decide (i = S n)) as [-> | Hne].
    + exists []. split; [done |]. intros j Hj. inversion Hj.
    + destruct IH as (pre & Hpre & Hall); [lia |].
      exists (S n :: pre). split; [simpl; by rewrite Hpre |].
      intros j [-> | Hj]%elem_of_cons; [lia |]. apply Hall in Hj. lia.
Qed.

Lemma evict_full_absent corp sh q w :
  cmap w !! (sh, q) ≫= e_status = None →
  evict_full X corp sh q w = (Ok tt, w).
Proof.
  intros Hst. unfold evict_full, bind, refresh_map, ret, get_calc_status, gets.
  by rewrite Hst.
Qed.

Lemma cancel_absent sh q w :
  cmap w !! (sh, q) = None → cancel_async_task X sh q w = (Ok tt, w).
Proof.
  intros He. unfold cancel_async_task, bind, cache_file_path, get_calc_status,
    gets, ret, del_entry, modify, del_silent, try_except, os_remove.
  rewrite He. simpl. destruct w. unfold set_cmap. simpl in *.
  by rewrite delete_id.
Qed.

Lemma same_base_prefix sh q i j :
  (1 ≤ i)%nat → (1 ≤ j)%nat → same_base sh (take i q) (sh, take j q).
Proof.
  intros Hi Hj. split; [done |]. simpl.
  rewrite !take_take. by rewrite !Nat.min_l by lia.
Qed.

(** The search from [len(q)] down, when nothing is registered above [i]. *)
Lemma search_from_top corp sh q minsize i w :
  _contains_shuffle_seq q = false →
  (1 ≤ i ≤ length q)%nat →
  (∀ j, (i < j ≤ length q)%nat → cmap w !! (sh, take j q) = None) →
  search X corp sh q minsize (range_down (srch_from q)) w
  = search X corp sh q minsize (i :: range_down (i - 1)) w.
Proof.
  intros Hsh Hi Hnone. unfold srch_from. rewrite Hsh.
  destruct (range_down_split (length q) i) as (pre & -> & Hpre); [lia |].
  rewrite search_skip_app by (intros j Hj; apply Hnone; by apply Hpre).
  destruct i as [|i]; [lia |]. simpl. by rewrite Nat.sub_0_r.
Qed.

Lemma find_cached_conc_base_of_search corp sh q minsize w r w' :
  q ≠ [] →
  _contains_shuffle_seq q = false →
  cmap w !! (sh, q) ≫= e_status = None →
  search X corp sh q minsize (range_down (srch_from q)) w = (r, w') →
  find_cached_conc_base X corp sh q minsize w = (r, w').
Proof.
  intros Hq Hsh Hst Hsearch. unfold find_cached_conc_base.
  rewrite (bind_Ok _ _ _ _ _ (evict_full_absent corp sh q w Hst)).
  unfold bind. rewrite Hsearch. destruct r; [| done | done].
  unfold srch_from. rewrite Hsh. by destruct q.
Qed.

Lemma check_result_error q sh minsize w st :
  cmap w !! (sh, q) ≫= e_status = Some st →
  error st ≠ PyNone →
  _check_result X q sh minsize w
  = (Raise (mk_exn CalcStatusException (py_str (error st))),
     (del_full_entry sh q w).2).
Proof.
  intros Hst Herr.
  unfold _check_result, bind, get_calc_status, gets, lift, raise, ret.
  rewrite Hst. unfold test_error. by destruct (error st).
Qed.

Lemma check_result_missing q sh minsize w :
  cmap w !! (sh, q) ≫= e_status = None →
  _check_result X q sh minsize w
  = (Raise (mk_exn ConcCalculationStatusException "Missing status information"),
     (del_full_entry sh q w).2).
Proof.
  intros Hst.
  unfold _check_result, bind, get_calc_status, gets, lift, raise, ret.
  by rewrite Hst.
Qed.

End Resolver.

(** [find_cached_conc_base], line 165-206, on a cold cache.  When no prefix
    of a non-empty [q] has an entry, the resolver returns [(0, EmptyConc)]
    at once and changes nothing. *)
Theorem find_cached_conc_base_cold (X : Externals) (corp : Corpus)
    (sh : option string) (q : list string) (minsize : Z) (w : World) :
  q ≠ [] →
  (∀ i, cmap w !! (sh, take i q) = None) →
  find_cached_conc_base X corp sh q minsize w = (Ok (O, EmptyConc corp), w).
Proof.
  intros Hq Hnone.
  assert (Hfull : cmap w !! (sh, q) = None).
  { rewrite <- (take_ge q (length q)) by lia. apply Hnone. }
  unfold find_cached_conc_base.
  rewrite (bind_Ok _ _ _ _ _ (evict_full_absent X corp sh q w ltac:(by rewrite Hfull))).
  unfold bind. rewrite search_none by (intros i _; apply Hnone).
  unfold srch_from. destruct (_contains_shuffle_seq q); [done |]. by destruct q.
Qed.

Lemma find_cached_conc_base_cold_witness :
  let w := one_entry_world ["q2"] ten_rows_so_far in
  find_cached_conc_base quiet syn None ["q1"; "r100"] 0 w
  = (Ok (O, EmptyConc syn), w).
Proof.
  intros w. apply (find_cached_conc_base_cold quiet syn None ["q1"; "r100"] 0 w).
  - discriminate.
  - intros [|[|[|i]]]; vm_compute; reflexivity.
Defined.

(** [find_cached_conc_base], line 165-206, on the empty query.  The loop
    has no pass, and the closing debug line reads the loop variable [i]:
    the call never returns a value. *)
Theorem find_cached_conc_base_empty_query (X : Externals) (corp : Corpus)
    (sh : option string) (minsize : Z) (w : World) :
  ∃ e w', find_cached_conc_base X corp sh [] minsize w = (Raise e, w')
          ∧ (exn_cls e = UnboundLocalError ∨ exn_cls e = TypeError).
Proof.
  unfold find_cached_conc_base, evict_full, bind, refresh_map, ret,
    get_calc_status, gets, del_full_entry, modify, raise. simpl.
  destruct (cmap w !! (sh, []) ≫= e_status) as [st|]; [| eauto].
  destruct (error st); try (eexists _, _; split; [done | by left]).
  destruct (py_num (created st)) as [c|]; [| eexists _, _; split; [done | by right]].
  destruct (10 * c - corplib_corp_mtime X corp <? 0);
    eexists _, _; (split; [done | by left]).
Qed.

(** [find_cached_conc_base], line 172-201: the longest cached prefix wins.
    For a query without adjacent shuffles, when nothing is registered for
    the prefixes longer than [i] and the entry of [q[:i]] is finished,
    without error and readable, the resolver returns [(i, c)] with [c]
    loaded from that entry's file, whatever shorter prefixes are cached,
    and changes nothing. *)
Theorem longest_cached_prefix_wins (X : Externals) (corp : Corpus)
    (sh : option string) (q : list string) (minsize : Z) (w : World)
    (i : nat) (st : CalcStatus) (p : string) (sz : Z) (d : ConcData)
    (mcorp : Corpus) :
  _contains_shuffle_seq q = false →
  (1 ≤ i < length q)%nat →
  (∀ j, (i < j ≤ length q)%nat → cmap w !! (sh, take j q) = None) →
  cmap w !! (sh, take i q) = Some (mk_Entry p sz (Some st)) →
  p ≠ "" →
  error st = PyNone →
  py_truthy (finished st) = true →
  size_or_none (concsize st) →
  files w !! p = Some (Some d) →
  main_corp X corp (take i q) w = (Ok mcorp, w) →
  find_cached_conc_base X corp sh q minsize w
  = (Ok (i, PyConc mcorp corp d), w).
Proof.
  intros Hsh Hi Hnone He Hp Herr Hfin Hsize Hfile Hmc.
  assert (Hfull : cmap w !! (sh, q) = None).
  { rewrite <- (take_ge q (length q)) by lia. apply Hnone. lia. }
  assert (Hq : q ≠ []) by (destruct q; [simpl in Hi; lia | done]).
  apply find_cached_conc_base_of_search; [done | done | by rewrite Hfull |].
  rewrite (search_from_top X corp sh q minsize i) by (done || lia).
  eapply search_break; [done | done |].
  by eapply try_prefix_loads.
Qed.

Lemma longest_cached_prefix_wins_witness :
  let st := status_at_200 (PyBool true) (PyInt 10) PyNone in
  let w := one_entry_world ["q1"] st in
  find_cached_conc_base quiet syn None ["q1"; "r100"; "s5"] 0 w
  = (Ok (1%nat, PyConc syn syn saved_q1), w).
Proof.
  intros st w.
  apply (longest_cached_prefix_wins quiet syn None ["q1"; "r100"; "s5"] 0 w
           1%nat st "/var/cache/a.conc" 10 saved_q1 syn).
  - reflexivity.
  - simpl. lia.
  - intros [|[|[|[|j]]]] Hj; simpl in Hj; try lia; vm_compute; reflexivity.
  - vm_compute. reflexivity.
  - discriminate.
  - reflexivity.
  - reflexivity.
  - right. vm_compute. eauto.
  - vm_compute. reflexivity.
  - reflexivity.
Defined.

Section ResolverFailures.
Context (X : Externals).

Lemma wait_for_conc_raises q sh minsize w e w1 :
  _check_result X q sh minsize w = (Raise e, w1) →
  wait_for_conc X q sh minsize w = (Raise e, w1).
Proof.
  intros Hchk. unfold wait_for_conc. unfold bind at 1. unfold gets.
  by rewrite (bind_Raise _ _ _ _ _ Hchk).
Qed.

Lemma try_prefix_error corp sh q minsize i p w st :
  cmap w !! (sh, take i q) ≫= e_status = Some st →
  error st ≠ PyNone →
  try_prefix X corp sh q minsize i p w
  = (Raise (mk_exn CalcStatusException (py_str (error st))),
     (del_full_entry sh (take i q) w).2).
Proof.
  intros Hst Herr. unfold try_prefix, try_except.
  rewrite (bind_Raise _ _ _ _ _
             (wait_for_conc_raises _ _ _ _ _ _
                (check_result_error X (take i q) sh minsize w st Hst Herr))).
  done.
Qed.

Lemma try_prefix_missing corp sh q minsize i p w :
  cmap w !! (sh, take i q) ≫= e_status = None →
  try_prefix X corp sh q minsize i p w
  = (Ok Continue, (del_full_entry sh (take i q) w).2).
Proof.
  intros Hst. unfold try_prefix, try_except.
  rewrite (bind_Raise _ _ _ _ _
             (wait_for_conc_raises _ _ _ _ _ _
                (check_result_missing X (take i q) sh minsize w Hst))).
  change (caught_by_resolver _) with true. cbv iota.
  rewrite (bind_Ok _ _ _ _ _ (cancel_absent X sh (take i q) _
                                (del_full_entry_gone sh (take i q) w))).
  done.
Qed.

End ResolverFailures.

(** [find_cached_conc_base], line 178-199: a failed shorter prefix aborts
    the resolution.  The handler of the loop catches
    [ConcCalculationStatusException] and [FileAccessError] only, so when the
    longest registered prefix [q[:i]], [i < len(q)], has [error] set, the
    [CalcStatusException] raised by the poll leaves the resolver, after the
    whole chain of that base query was evicted. *)
Theorem errored_prefix_aborts (X : Externals) (corp : Corpus)
    (sh : option string) (q : list string) (minsize : Z) (w : World)
    (i : nat) (e : Entry) (st : CalcStatus) :
  _contains_shuffle_seq q = false →
  (1 ≤ i < length q)%nat →
  (∀ j, (i < j ≤ length q)%nat → cmap w !! (sh, take j q) = None) →
  cmap w !! (sh, take i q) = Some e →
  e_path e ≠ "" →
  e_status e = Some st →
  error st ≠ PyNone →
  find_cached_conc_base X corp sh q minsize w
  = (Raise (mk_exn CalcStatusException (py_str (error st))),
     (del_full_entry sh (take i q) w).2)
  ∧ ∀ j, (1 ≤ j)%nat →
         cmap (del_full_entry sh (take i q) w).2 !! (sh, take j q) = None.
Proof.
  intros Hsh Hi Hnone He Hp Hst Herr.
  assert (Hfull : cmap w !! (sh, q) = None).
  { rewrite <- (take_ge q (length q)) by lia. apply Hnone. lia. }
  assert (Hq : q ≠ []) by (destruct q; [simpl in Hi; lia | done]).
  split.
  - apply find_cached_conc_base_of_search; [done | done | by rewrite Hfull |].
    rewrite (search_from_top X corp sh q minsize i) by (done || lia).
    cbn [search]. unfold bind at 1. unfold cache_file_path, gets. rewrite He.
    cbn [fmap option_fmap option_map].
    destruct (String.eqb_spec (e_path e) "") as [? | _]; [done |]. cbn [negb].
    erewrite bind_Raise; [done |].
    apply try_prefix_error; [by rewrite He | done].
  - intros j Hj. unfold del_full_entry, modify. simpl.
    apply map_lookup_filter_None. right. intros e' _ Hn. apply Hn.
    apply same_base_prefix; lia.
Qed.

Lemma errored_prefix_aborts_witness :
  let st := status_at_200 (PyBool true) (PyInt 0) (PyStr "engine failure") in
  let w := one_entry_world ["q1"] st in
  (find_cached_conc_base quiet syn None ["q1"; "r100"] 0 w).1
  = Raise (mk_exn CalcStatusException "engine failure").
Proof.
  intros st w.
  destruct (errored_prefix_aborts quiet syn None ["q1"; "r100"] 0 w 1%nat
              (mk_Entry "/var/cache/a.conc" 10 (Some st)) st) as [-> _].
  - reflexivity.
  - simpl. lia.
  - intros [|[|[|j]]] Hj; simpl in Hj; try lia; vm_compute; reflexivity.
  - vm_compute. reflexivity.
  - discriminate.
  - reflexivity.
  - discriminate.
  - reflexivity.
Defined.

(** [find_cached_conc_base], line 124-127 and 196-199: an entry without a
    status wipes its chain.  When the longest registered prefix has a cache
    path but no status, the poll evicts every entry of the base query, the
    exception is caught, and since the shorter prefixes are gone as well the
    resolver returns [(0, EmptyConc)]. *)
Theorem statusless_prefix_wipes_chain (X : Externals) (corp : Corpus)
    (sh : option string) (q : list string) (minsize : Z) (w : World)
    (i : nat) (e : Entry) :
  _contains_shuffle_seq q = false →
  (1 ≤ i ≤ length q)%nat →
  (∀ j, (i < j ≤ length q)%nat → cmap w !! (sh, take j q) = None) →
  cmap w !! (sh, take i q) = Some e →
  e_path e ≠ "" →
  e_status e = None →
  find_cached_conc_base X corp sh q minsize w
  = (Ok (O, EmptyConc corp), (del_full_entry sh (take i q) w).2).
Proof.
  intros Hsh Hi Hnone He Hp Hst.
  assert (Hfull : cmap w !! (sh, q) ≫= e_status = None).
  { rewrite <- (take_ge q (length q)) by lia.
    destruct (decide (i = length q)) as [<- | Hne]; [by rewrite He |].
    rewrite Hnone by lia. done. }
  assert (Hq : q ≠ []) by (destruct q; [simpl in Hi; lia | done]).
  apply find_cached_conc_base_of_search; [done | done | done |].
  rewrite (search_from_top X corp sh q minsize i) by (done || lia).
  cbn [search]. unfold bind at 1. unfold cache_file_path, gets. rewrite He.
  cbn [fmap option_fmap option_map].
  destruct (String.eqb_spec (e_path e) "") as [? | _]; [done |]. cbn [negb].
  erewrite bind_Ok; [| apply try_prefix_missing; by rewrite He].
  cbv iota. apply search_none. intros j Hj%elem_of_range_down.
  unfold del_full_entry, modify. simpl.
  apply map_lookup_filter_None. right. intros e' _ Hn. apply Hn.
  apply same_base_prefix; lia.
Qed.

Lemma statusless_prefix_wipes_chain_witness :
  let st := status_at_200 (PyBool true) (PyInt 10) PyNone in
  let w := mk_World (<[(None, ["q1"; "r100"]) := mk_Entry "/var/cache/b.conc" 0 None]>
                       (<[(None, ["q1"]) := mk_Entry "/var/cache/a.conc" 10 (Some st)]> ∅))
                    (<["/var/cache/a.conc" := Some saved_q1]> ∅) 2050 [] [] in
  (find_cached_conc_base quiet syn None ["q1"; "r100"] 0 w).1
  = Ok (O, EmptyConc syn).
Proof.
  intros st w.
  rewrite (statusless_prefix_wipes_chain quiet syn None ["q1"; "r100"] 0 w 2%nat
             (mk_Entry "/var/cache/b.conc" 0 None)).
  - reflexivity.
  - reflexivity.
  - simpl. lia.
  - intros j Hj. simpl in Hj. lia.
  - vm_compute. reflexivity.
  - discriminate.
  - reflexivity.
Defined.

Section MainCorp.

Lemma substring_all (s : string) : String.substring 0 (String.length s) s = s.
Proof. induction s as [|c s IH]; [done |]. simpl. by rewrite IH. Qed.

Lemma drop2_marker (name : string) : drop2 ("x-" +:+ name) = name.
Proof. unfold drop2. simpl. rewrite Nat.sub_0_r. apply substring_all. Qed.

Lemma find_none_all (f : string → bool) (l : list string) :
  (∀ op, op ∈ l → f op = false) → List.find f l = None.
Proof.
  induction l as [|a l IH]; intros Hall; [done |]. simpl.
  rewrite Hall by (by left). apply IH. intros op Hop. apply Hall. by right.
Qed.

Lemma prefix_marker (name : string) : String.prefix "x-" ("x-" +:+ name) = true.
Proof. simpl. by destruct name. Qed.

Lemma elem_of_rev (l : list string) (x : string) : x ∈ rev l → x ∈ l.
Proof. rewrite !list_elem_of_In. apply in_rev. Qed.

End MainCorp.

(** [find_cached_conc_base], line 190-194.  The main corpus of the loaded
    concordance is the corpus named by the last ['x-'] operation of the
    prefix, and the original corpus when the prefix has none. *)
Theorem main_corp_last_marker (X : Externals) (corp : Corpus) (w : World) :
  (∀ q, (∀ op, op ∈ q → String.prefix "x-" op = false) →
        main_corp X corp q w = (Ok corp, w))
  ∧ (∀ pre name post,
       (∀ op, op ∈ post → String.prefix "x-" op = false) →
       main_corp X corp (pre ++ ("x-" +:+ name) :: post) w
       = (manatee_Corpus X name, w)).
Proof.
  split.
  - intros q Hall. unfold main_corp.
    rewrite find_none_all; [done |]. intros op Hop. apply Hall.
    by apply elem_of_rev.
  - intros pre name post Hall. unfold main_corp.
    rewrite rev_app_distr. cbn [rev]. rewrite <- app_assoc. cbn [app].
    assert (Hfind : ∀ l l', (∀ op, op ∈ l → String.prefix "x-" op = false) →
              List.find (String.prefix "x-") (l ++ ("x-" +:+ name) :: l')
              = Some ("x-" +:+ name)).
    { intros l l'. induction l as [|a l IH]; intros Hl;
        [cbn [app List.find]; by rewrite prefix_marker |].
      cbn [app List.find]. rewrite Hl by (by left).
      apply IH. intros op Hop. apply Hl. by right. }
    rewrite (Hfind (rev post)).
    + unfold lift. by rewrite drop2_marker.
    + intros op Hop. apply Hall. by apply elem_of_rev.
Qed.

Lemma main_corp_last_marker_witness :
  main_corp quiet syn ["q1"; "x-intercorp_en"; "r10"]
            (one_entry_world ["q1"] ten_rows_so_far)
  = (Ok (mk_Corpus "intercorp_en" None), one_entry_world ["q1"] ten_rows_so_far).
Proof.
  apply (proj2 (main_corp_last_marker quiet syn
                  (one_entry_world ["q1"] ten_rows_so_far))
           ["q1"] "intercorp_en" ["r10"]).
  intros op Hop. apply list_elem_of_singleton in Hop as ->. reflexivity.
Defined.

(** * Further properties of the workers *)

Section WorkersNeverRaise.
Context (X : Externals).

Lemma mark_calc_states_err_returns sh q from_idx e w :
  (_mark_calc_states_err X sh q from_idx e w).1 = Ok tt.
Proof.
  destruct (mark_calc_states_err_marks X sh q from_idx e w) as (w' & -> & _).
  done.
Qed.

Lemma sync_loop_no_raise sh q acts d w :
  (sync_loop X sh q acts d w).1 = Ok tt ∨ (sync_loop X sh q acts d w).1 = Diverge.
Proof.
  revert d w. induction acts as [|act rest IH]; intros d w; [by left |].
  rewrite sync_loop_cons.
  destruct (sync_step X sh q act d w) as [[d'|ex|] w1]; [apply IH | | by right].
  left. apply mark_calc_states_err_returns.
Qed.

(** An exception that leaves [_mark_calc_states_err] was raised by one of
    its [update_calc_status] calls. *)
Lemma mark_each_raises (cache_map : CacheMap) sh q e0 idxs w e w' :
  mark_each_with cache_map sh q e0 idxs w = (Raise e, w') →
  ∃ i w3, i ∈ idxs
          ∧ cm_update_calc_status cache_map sh (take (S i) q)
              [("error", PyExc e0); ("finished", PyBool true)] w3 = (Raise e, w').
Proof.
  revert w. induction idxs as [|j rest IH]; intros w; cbn [mark_each_with];
    [done |].
  unfold bind.
  destruct (cm_update_calc_status cache_map sh (take (S j) q) _ w)
    as [[[]|e1|] w1] eqn:Hu.
  - intros H. destruct (IH _ H) as (i & w3 & Hi & Hr).
    exists i, w3. split; [by right | done].
  - intros [= <- <-]. exists j, w. split; [by left | done].
  - done.
Qed.

Lemma sync_loop_raises (cache_map : CacheMap) sh q acts d w e w' :
  (∀ act, act ∈ acts → (act < length q)%nat) →
  sync_loop_with X cache_map sh q acts d w = (Raise e, w') →
  ∃ i e0 w3, (i < length q)%nat
             ∧ cm_update_calc_status cache_map sh (take (S i) q)
                 [("error", PyExc e0); ("finished", PyBool true)] w3
               = (Raise e, w').
Proof.
  revert d w. induction acts as [|act rest IH]; intros d w Hlen;
    cbn [sync_loop_with]; [done |].
  destruct (sync_step_with X cache_map sh q act d w) as [[d'|ex|] w1];
    [| | done].
  - apply IH. intros a Ha. apply Hlen. by right.
  - unfold _mark_calc_states_err_with. intros H.
    apply mark_each_raises in H as (i & w3 & Hi & Hr).
    apply elem_of_py_range in Hi. exists i, ex, w3. split; [lia | done].
Qed.

End WorkersNeverRaise.

(** [ConcCalculation.__call__], line 216-270.  Whatever the cache map the
    factory hands out, an exception leaves the call only if it is raised
    by the handler's own [update_calc_status] (line 270), which runs
    outside any [try]: what the corpus manager, the factory, the engine,
    the storage or the cache map raise inside the [try] block is caught.
    With the cache map of the spec, whose update returns, no exception
    leaves the call: it returns or, with an engine that never finishes,
    keeps running. *)
Theorem conc_calculation_escapes_only_from_handler (X : Externals)
    (cache_map : CacheMap) (fuel : nat)
    (tid : pyval) (args : InitialArgs) (subc_dirs : list string)
    (corpus_name : string) (subc_name sh : option string)
    (query : list string) (samplesize : Z) (w : World) :
  let r := ConcCalculation_call_with X cache_map fuel tid args subc_dirs
             corpus_name subc_name sh query samplesize w in
  (∀ e, r.1 = Raise e →
     ∃ corpus_obj e0 w2,
       compute_and_cache_with X cache_map fuel tid args corpus_obj sh query
                              samplesize w = (Raise e0, w2)
       ∧ cm_update_calc_status cache_map sh query
           [("finished", PyBool true); ("error", PyExc e0)] w2 = (Raise e, r.2))
  ∧ (cache_map = spec_cache_map X → r.1 = Ok tt ∨ r.1 = Diverge).
Proof.
  intros r. subst r. unfold ConcCalculation_call_with.
  destruct (open_cache_map X subc_dirs corpus_name subc_name w)
    as [[corpus_obj|ex|] w1] eqn:Hopen;
    apply open_cache_map_pure in Hopen as ->;
    [| split; [done | by left] | split; [done | by right]].
  unfold try_except.
  destruct (compute_and_cache_with X cache_map fuel tid args corpus_obj sh query
              samplesize w) as [[[]|ex|] w2] eqn:Hbody;
    [split; [done | by left] | | split; [done | by right]].
  split.
  - intros e He. exists corpus_obj, ex, w2. split; [done |].
    destruct (cm_update_calc_status cache_map sh query _ w2) as [r3 w3].
    cbn [fst snd] in *. by rewrite He.
  - intros ->. cbn [cm_update_calc_status spec_cache_map].
    destruct (update_calc_status_marks X sh query ex _ w2 (or_intror eq_refl))
      as (w3 & -> & _).
    by left.
Qed.

(** [ConcSyncCalculation.__call__], line 294-323.  Whatever the cache map
    the worker was given, an exception leaves the call only if it is
    raised by one of the [update_calc_status] calls of
    [_mark_calc_states_err], which both handlers call outside any [try]
    (lines 306 and 321): what the resolver, the engine, the storage or the
    cache map raise inside the two [try] blocks is caught.  With the cache
    map of the spec, whose update returns, no exception leaves the call. *)
Theorem sync_calculation_escapes_only_from_marking (X : Externals)
    (cache_map : CacheMap) (corp : Corpus)
    (sh : option string) (q : list string) (samplesize : Z) (w : World) :
  let r := ConcSyncCalculation_call_with X cache_map corp sh q samplesize w in
  (∀ e, r.1 = Raise e →
     ∃ i e0 w3, (i < length q)%nat
                ∧ cm_update_calc_status cache_map sh (take (S i) q)
                    [("error", PyExc e0); ("finished", PyBool true)] w3
                  = (Raise e, r.2))
  ∧ (cache_map = spec_cache_map X → r.1 = Ok tt ∨ r.1 = Diverge).
Proof.
  intros r. subst r. split.
  - unfold ConcSyncCalculation_call_with.
    destruct (sync_base_with X cache_map corp sh q samplesize w)
      as [[[calc_from d]|ex|] w1]; [| | done].
    + intros e He.
      destruct (sync_loop_with X cache_map sh q _ d w1) as [r2 w2] eqn:Hloop.
      cbn [fst snd] in *. subst r2.
      apply (sync_loop_raises X cache_map) in Hloop; [done |].
      intros act Hact. apply elem_of_py_range in Hact. lia.
    + intros e He. unfold _mark_calc_states_err_with in *.
      destruct (mark_each_with cache_map sh q ex _ w1) as [r2 w2] eqn:Hmark.
      cbn [fst snd] in *. subst r2.
      apply mark_each_raises in Hmark as (i & w3 & Hi & Hr).
      apply elem_of_py_range in Hi. exists i, ex, w3. split; [lia | done].
  - intros ->.
    change (ConcSyncCalculation_call_with X (spec_cache_map X) corp sh q
              samplesize w)
      with (ConcSyncCalculation_call X corp sh q samplesize w).
    rewrite ConcSyncCalculation_call_eq.
    destruct (sync_base X corp sh q samplesize w) as [[[calc_from d]|ex|] w1];
      [apply sync_loop_no_raise | | by right].
    left. apply mark_calc_states_err_returns.
Qed.

(** [ConcCalculation.__call__], line 232: with [already_running] set the
    worker is a no-op.  Nothing is computed, saved or recorded, whether the
    corpus can be opened or not. *)
Theorem conc_calculation_already_running (X : Externals) (fuel : nat)
    (tid : pyval) (args : InitialArgs) (subc_dirs : list string)
    (corpus_name : string) (subc_name sh : option string)
    (query : list string) (samplesize : Z) (w : World) :
  already_running args = true →
  get_Corpus X subc_dirs corpus_name subc_name ≠ Diverge →
  ConcCalculation_call X fuel tid args subc_dirs corpus_name subc_name sh
                       query samplesize w = (Ok tt, w).
Proof.
  intros Hrun Hopen. unfold ConcCalculation_call, ConcCalculation_call_with,
    open_cache_map, bind, lift, raise, ret, try_except, compute_and_cache_with.
  destruct (get_Corpus X subc_dirs corpus_name subc_name) as [c|ex|];
    [| done | done].
  destruct (get_mapping X c); [done |]. by rewrite Hrun.
Qed.

Lemma conc_calculation_already_running_witness :
  let w := one_entry_world ["q1"] ten_rows_so_far in
  ConcCalculation_call failing_engine 10 (PyStr "T2")
    (mk_InitialArgs "/var/cache/a.conc" true) [] "syn2015" None None ["q1"] 0 w
  = (Ok tt, w).
Proof.
  intros w.
  apply (conc_calculation_already_running failing_engine 10 (PyStr "T2")
           (mk_InitialArgs "/var/cache/a.conc" true) [] "syn2015" None None
           ["q1"] 0 w).
  - reflexivity.
  - discriminate.
Defined.

Section MarkFrame.
Context (X : Externals).

Lemma mark_each_frame sh q e idxs w k :
  (∀ i, i ∈ idxs → k ≠ (sh, take (S i) q)) →
  cmap (mark_each X sh q e idxs w).2 !! k = cmap w !! k.
Proof.
  revert w. induction idxs as [|j rest IH]; intros w Hk; [done |].
  rewrite mark_each_cons.
  destruct (update_calc_status_marks X sh (take (S j) q) e _ w (or_introl eq_refl))
    as (w1 & Hu & _ & Ho & _).
  rewrite (bind_Ok _ _ _ _ _ Hu).
  rewrite IH by (intros i Hi; apply Hk; by right).
  apply Ho. apply Hk. by left.
Qed.

End MarkFrame.

(** [_mark_calc_states_err], line 290-292.  Marking the prefixes from
    [from_idx] on leaves every other entry as it is: the prefixes computed
    before the failing step keep their statuses, and so do the entries of
    other queries and subcorpora. *)
Theorem mark_calc_states_err_frame (X : Externals) (sh : option string)
    (q : list string) (from_idx : nat) (e : exn) (w : World) :
  let w' := (_mark_calc_states_err X sh q from_idx e w).2 in
  (∀ j, (j < from_idx)%nat → (j < length q)%nat →
        cmap w' !! (sh, take (S j) q) = cmap w !! (sh, take (S j) q))
  ∧ (∀ sh' q', (∀ i, q' ≠ take i q) → cmap w' !! (sh', q') = cmap w !! (sh', q'))
  ∧ (∀ sh' q', sh' ≠ sh → cmap w' !! (sh', q') = cmap w !! (sh', q')).
Proof.
  intros w'. subst w'. rewrite mark_calc_states_err_eq. split_and!.
  - intros j Hj Hlen. apply mark_each_frame.
    intros i Hi%elem_of_py_range [= Heq].
    apply (f_equal length) in Heq. rewrite !length_take in Heq. lia.
  - intros sh' q' Hq'. apply mark_each_frame.
    intros i _ [= _ Heq]. by apply (Hq' (S i)).
  - intros sh' q' Hsh. apply mark_each_frame.
    intros i _ [= Heq _]. done.
Qed.

Lemma mark_calc_states_err_frame_witness :
  let st := status_at_200 (PyBool true) (PyInt 10) PyNone in
  let w := one_entry_world ["q1"] st in
  cmap (_mark_calc_states_err quiet None volatile_query 1
          (mk_exn NotImplementedError "no") w).2 !! (None, take 1 volatile_query)
  = cmap w !! (None, take 1 volatile_query).
Proof.
  intros st w.
  apply (proj1 (mark_calc_states_err_frame quiet None volatile_query 1
                  (mk_exn NotImplementedError "no") w) O).
  - lia.
  - simpl. lia.
Defined.

Section CalculationSuccess.
Context (X : Externals).




End CalculationSuccess.



(** * Properties of the task facade and of the controller helpers *)

Import konserver kontext.

Section NamedArgsLemmas.
Context {V : Type} (none : V).

Lemma foldl_mapping_lookup (l : list (nat * string)) (m0 : gmap string nat) (k : string) :
  NoDup l.*2 →
  foldl (λ m x, <[x.2 := x.1]> m) m0 l !! k
  = match List.find (λ x, String.eqb x.2 k) l with
    | Some x => Some x.1
    | None => m0 !! k
    end.
Proof.
  revert m0. induction l as [|[i0 k0] l IH]; intros m0 Hnd; [done |].
  simpl in Hnd. apply NoDup_cons in Hnd as [Hnotin Hnd].
  cbn [foldl List.find snd fst]. rewrite IH by done.
  destruct (String.eqb_spec k0 k) as [-> | Hne].
  - destruct (List.find _ l) as [[i1 k1]|] eqn:Hfind.
    + apply find_some in Hfind as [Hin Heq]. simpl in Heq.
      apply String.eqb_eq in Heq. subst k1. exfalso. apply Hnotin.
      apply list_elem_of_fmap. exists (i1, k). split; [done |].
      by apply list_elem_of_In.
    + simpl. apply lookup_insert_eq.
  - destruct (List.find _ l); [done |]. simpl. by apply lookup_insert_ne.
Qed.

Lemma foldl_mapping_size (l : list (nat * string)) (m0 : gmap string nat) :
  NoDup l.*2 → (∀ x, x ∈ l → m0 !! x.2 = None) →
  size (foldl (λ m x, <[x.2 := x.1]> m) m0 l) = (size m0 + length l)%nat.
Proof.
  revert m0. induction l as [|[i0 k0] l IH]; intros m0 Hnd Hfresh; [simpl; lia |].
  simpl in Hnd. apply NoDup_cons in Hnd as [Hnotin Hnd].
  cbn [foldl snd fst length]. rewrite IH; [| done |].
  - rewrite map_size_insert_None by (apply (Hfresh (i0, k0)); by left). lia.
  - intros [i k] Hx. simpl. rewrite lookup_insert_ne.
    + apply (Hfresh (i, k)). by right.
    + intros ->. apply Hnotin. apply list_elem_of_fmap. by exists (i, k).
Qed.

Lemma imap_pair_snd (names : list string) : (imap pair names).*2 = names.
Proof.
  apply list_eq. intros i.
  rewrite list_lookup_fmap, list_lookup_imap. by destruct (names !! i).
Qed.

Lemma arg_mapping_lookup (names : list string) (k : string) (i : nat) :
  NoDup names →
  arg_mapping names !! k = Some i ↔ names !! i = Some k.
Proof.
  intros Hnd. unfold arg_mapping.
  rewrite foldl_mapping_lookup by (by rewrite imap_pair_snd).
  destruct (List.find _ _) as [[j k']|] eqn:Hfind.
  - apply find_some in Hfind as [Hin Heq]. simpl in Heq.
    apply String.eqb_eq in Heq. subst k'.
    apply list_elem_of_In, elem_of_lookup_imap in Hin as (j' & x & [= <- <-] & Hj).
    simpl. split; [by intros [= <-] |]. intros Hi. f_equal.
    by eapply NoDup_lookup.
  - rewrite lookup_empty. split; [done |]. intros Hi. exfalso.
    assert (Hin : In (i, k) (imap pair names)).
    { apply list_elem_of_In. apply elem_of_lookup_imap. by exists i, k. }
    apply (find_none _ _ Hfind) in Hin. simpl in Hin.
    by rewrite String.eqb_refl in Hin.
Qed.

Lemma arg_mapping_size (names : list string) :
  NoDup names → size (arg_mapping names) = length names.
Proof.
  intros Hnd. unfold arg_mapping.
  rewrite foldl_mapping_size; [| by rewrite imap_pair_snd | done].
  rewrite map_size_empty, length_imap. lia.
Qed.

(** The loop, when the indices of the items are distinct and in range. *)
Lemma fill_args_spec (args : gmap string V) (items : list (string * nat))
    (ca : list V) :
  NoDup items.*2 →
  (∀ x, x ∈ items → (x.2 < length ca)%nat) →
  ∃ l, fill_args args items ca = Ok l
       ∧ length l = length ca
       ∧ ∀ j, (∀ k v, (k, j) ∈ items → args !! k = Some v → l !! j = Some v)
              ∧ ((∀ k, (k, j) ∈ items → args !! k = None) → l !! j = ca !! j).
Proof.
  revert ca. induction items as [|[k0 i0] items IH]; intros ca Hnd Hlt.
  - exists ca. split_and!; try done. intros j. split; [| done].
    intros k v Hin. inversion Hin.
  - simpl in Hnd. apply NoDup_cons in Hnd as [Hnotin Hnd].
    assert (Hi0 : (i0 < length ca)%nat) by (apply (Hlt (k0, i0)); by left).
    cbn [fill_args].
    destruct (args !! k0) as [v0|] eqn:Hk0.
    + destruct (decide (i0 < length ca)%nat) as [_ | ?]; [| done].
      destruct (IH (<[i0 := v0]> ca) Hnd) as (l & Hfill & Hlen & Hspec).
      { intros x Hx. rewrite length_insert. apply Hlt. by right. }
      exists l. split; [done |]. split; [by rewrite Hlen, length_insert |].
      intros j. destruct (Hspec j) as [Hset Hkeep]. split.
      * intros k v [[= -> ->] | Hin]%elem_of_cons Hv.
        -- rewrite Hkeep.
           ++ rewrite list_lookup_insert_eq by done. congruence.
           ++ intros k Hin. exfalso. apply Hnotin.
              apply list_elem_of_fmap. by exists (k, i0).
        -- by eapply Hset.
      * intros Hnone. rewrite Hkeep.
        -- apply list_lookup_insert_ne. intros ->.
           specialize (Hnone k0 ltac:(by left)). congruence.
        -- intros k Hin. apply Hnone. by right.
    + destruct (IH ca Hnd) as (l & Hfill & Hlen & Hspec).
      { intros x Hx. apply Hlt. by right. }
      exists l. split; [done |]. split; [done |].
      intros j. destruct (Hspec j) as [Hset Hkeep]. split.
      * intros k v [[= -> ->] | Hin]%elem_of_cons Hv; [congruence |].
        by eapply Hset.
      * intros Hnone. apply Hkeep. intros k Hin. apply Hnone. by right.
Qed.

End NamedArgsLemmas.

(** [KonserverApp._named_args_to_pos], line 222-242.  Named arguments are
    put at the positions of the parameters: the result has one slot per
    parameter (without the first one for a bound task), a slot holds the
    value passed under the parameter's name and None when there is none,
    and names that are no parameter are dropped.  Positional arguments are
    passed on as they are, neither padded nor cut; a value that cannot be
    iterated is rejected. *)
Theorem named_args_to_positions {V : Type} (none : V) (fn_args : list string)
    (is_bound : bool) :
  let params := if is_bound then drop 1 fn_args else fn_args in
  (NoDup params →
   ∀ d, ∃ l, _named_args_to_pos none fn_args is_bound (ArgsDict d) = Ok l
             ∧ length l = length params
             ∧ ∀ i name, params !! i = Some name →
                         l !! i = Some (default none (d !! name)))
  ∧ (∀ l, _named_args_to_pos none fn_args is_bound (ArgsSeq l) = Ok l)
  ∧ (∃ e, _named_args_to_pos none fn_args is_bound ArgsScalar = Raise e
          ∧ exn_cls e = TypeError).
Proof.
  intros params. split_and!; [| done | by eexists].
  intros Hnd d. unfold _named_args_to_pos. fold params.
  pose proof (arg_mapping_size params Hnd) as Hsize.
  destruct (fill_args_spec d (map_to_list (arg_mapping params))
              (replicate (size (arg_mapping params)) none))
    as (l & Hfill & Hlen & Hspec).
  - apply NoDup_fmap_2_strong; [| apply NoDup_map_to_list].
    intros [k1 i1] [k2 i2] H1%elem_of_map_to_list H2%elem_of_map_to_list Heq.
    simpl in Heq. subst i2.
    apply arg_mapping_lookup in H1; [| done]. apply arg_mapping_lookup in H2; [| done].
    congruence.
  - intros [k i] Hx%elem_of_map_to_list. simpl. rewrite length_replicate, Hsize.
    apply arg_mapping_lookup in Hx; [| done]. by apply lookup_lt_Some in Hx.
  - exists l. split; [done |]. rewrite length_replicate, Hsize in Hlen.
    split; [done |]. intros i name Hi. destruct (Hspec i) as [Hset Hkeep].
    destruct (d !! name) as [v|] eqn:Hd; simpl.
    + apply (Hset name); [| done].
      apply elem_of_map_to_list. by apply arg_mapping_lookup.
    + rewrite Hkeep.
      * apply lookup_replicate_2. rewrite Hsize. by apply lookup_lt_Some in Hi.
      * intros k Hin%elem_of_map_to_list. apply arg_mapping_lookup in Hin; [| done].
        congruence.
Qed.

Lemma named_args_to_positions_witness :
  _named_args_to_pos PyNone ["self"; "corpus"; "query"; "size"] true
    (ArgsDict (<["size" := PyInt 5]> (<["corpus" := PyStr "syn"]>
                 (<["extra" := PyBool true]> ∅))))
  = Ok [PyStr "syn"; PyNone; PyInt 5].
Proof.
  destruct (proj1 (named_args_to_positions PyNone
                     ["self"; "corpus"; "query"; "size"] true)
              ltac:(apply (bool_decide_unpack _); vm_compute; exact I)
              (<["size" := PyInt 5]> (<["corpus" := PyStr "syn"]>
                 (<["extra" := PyBool true]> ∅))))
    as (l & -> & Hlen & Hl).
  f_equal.
  pose proof (Hl 0%nat "corpus" eq_refl) as H0.
  pose proof (Hl 1%nat "query" eq_refl) as H1.
  pose proof (Hl 2%nat "size" eq_refl) as H2.
  destruct l as [|a [|b [|c [|? ?]]]]; try discriminate Hlen.
  vm_compute in H0, H1, H2. congruence.
Defined.

(** [Kontext._validate_range], line 1283-1303.  The range is accepted
    (None is returned) exactly when it is non-empty, starts at or after the
    lower bound, and ends at or before the upper bound if there is one.
    With an open upper bound a rejected range is always reported as a
    selection from an empty list, because None compares below the lower
    bound. *)
Theorem validate_range_accepts (gettext : string → string)
    (format : string → list Z → result string)
    (lo hi mlo : Z) (mhi : option Z) :
  (_validate_range gettext format (lo, hi) (mlo, mhi) = Ok None
   ↔ mlo ≤ lo ∧ lo ≤ hi ∧ ∀ m, mhi = Some m → hi ≤ m)
  ∧ (mhi = None → ¬ (mlo ≤ lo ∧ lo ≤ hi) →
     _validate_range gettext format (lo, hi) (mlo, mhi)
     = Ok (Some (mk_exn (OtherException "UserActionException")
                   (gettext "Invalid range - cannot select rows from an empty list.")))).
Proof.
  unfold _validate_range. split.
  - destruct (Z.ltb_spec lo mlo); cbn [orb].
    { split; [| lia]. destruct (gt_or_none mlo mhi); [done |].
      destruct mhi; [by destruct (format _ _) | by destruct (format _ _)]. }
    destruct mhi as [m|].
    + destruct (Z.ltb_spec m hi); cbn [orb].
      { split; [| intros (_ & _ & Hm); specialize (Hm m eq_refl); lia].
        destruct (gt_or_none mlo (Some m)); [done | by destruct (format _ _)]. }
      destruct (Z.ltb_spec hi lo).
      { split; [| lia].
        destruct (gt_or_none mlo (Some m)); [done | by destruct (format _ _)]. }
      split; [| done]. intros _. split_and!; try lia. by intros ? [= <-].
    + cbn [orb]. destruct (Z.ltb_spec hi lo).
      { split; [done | lia]. }
      split; [| done]. intros _. split_and!; try lia. done.
  - intros -> Hbad. simpl.
    destruct (Z.ltb_spec lo mlo); cbn [orb]; [done |].
    destruct (Z.ltb_spec hi lo); [done | lia].
Qed.

Lemma prefix_dash (c : Ascii.ascii) (rest : string) :
  String.prefix "-" (String c rest) = String.eqb (String c "") "-".
Proof.
  destruct c as [[] [] [] [] [] [] [] []]; destruct rest; reflexivity.
Qed.

(** [Kontext._parse_sorting_param], line 1325-1331.  The empty key raises
    an IndexError; otherwise exactly one leading ['-'] is taken off and
    reported as the reverse flag, so that the key can be put together again
    from the result. *)
Theorem parse_sorting_param_round_trip (k : string) :
  (k = "" ↔ ∃ e, _parse_sorting_param k = Raise e)
  ∧ ∀ k' r, _parse_sorting_param k = Ok (k', r) →
            (if r then "-" +:+ k' else k') = k
            ∧ (r = true ↔ String.prefix "-" k = true).
Proof.
  destruct k as [|c rest]; cbn [_parse_sorting_param].
  - split; [split; [eauto | done] | done].
  - rewrite prefix_dash.
    split; [split; [done | intros [e He]; by destruct (String.eqb _ _)] |].
    intros k' r.
    destruct (String.eqb (String c "") "-") eqn:Heq.
    + apply String.eqb_eq in Heq. injection Heq as ->.
      intros [= <- <-]. done.
    + intros [= <- <-]. done.
Qed.

(** [LegacyForm.getvalue], line 90-94.  The values of the form take
    precedence over those of the query arguments, which are consulted only
    when the form has none; a single value comes back bare and several as a
    list; a key without any value raises an IndexError. *)
Theorem getvalue_precedence {V : Type} (form args : gmap string (list V))
    (k : string) :
  let chosen := if decide (getlist form k = []) then getlist args k
                else getlist form k in
  ((∃ e, getvalue form args k = Raise e) ↔ chosen = [])
  ∧ (∀ v, getvalue form args k = Ok (inl v) ↔ chosen = [v])
  ∧ (∀ l, getvalue form args k = Ok (inr l) ↔ chosen = l ∧ (1 < length l)%nat).
Proof.
  intros chosen. unfold getvalue.
  assert (Hc : (if bool_decide (length (getlist form k) = O)
                   && bool_decide (is_Some (args !! k))
                then getlist args k else getlist form k) = chosen).
  { subst chosen. destruct (decide (getlist form k = [])) as [He | Hne].
    - rewrite He. unfold getlist. cbn [length].
      rewrite bool_decide_true by done. cbn [andb].
      destruct (args !! k) eqn:Ha.
      + by rewrite bool_decide_true by eauto.
      + by rewrite bool_decide_false by (by intros [? ?]).
    - rewrite bool_decide_false; [done |].
      by destruct (getlist form k). }
  rewrite Hc. clear Hc. destruct chosen as [|v [|v' l]]; simpl.
  - split_and!; [split; eauto | split; done | split; [done | intros [<- ?]; simpl in *; lia]].
  - split_and!.
    + split; [intros [? ?]; done | done].
    + intros v0. split; intros [= ->]; done.
    + intros l. split; [done | intros [<- ?]; simpl in *; lia].
  - split_and!.
    + split; [intros [? ?]; done | done].
    + intros v0. split; [done | done].
    + intros l0. split; [intros [= <-]; split; [done | simpl; lia] |].
      by intros [<- _].
Qed.

(** * The steps of the synchronous worker when they succeed *)

Section SyncSteps.
Context (X : Externals).

Lemma update_calc_status_records sh q n w :
  ∃ w', update_calc_status X sh q
          [("finished", PyBool true); ("concsize", PyInt n)] w = (Ok tt, w')
        ∧ recorded n (sh, q) w'
        ∧ (∀ k, k ≠ (sh, q) → cmap w' !! k = cmap w !! k)
        ∧ files w' = files w.
Proof.
  unfold update_calc_status.
  set (st := default (init_default (getpid X) (clock w))
                     (cmap w !! (sh, q) ≫= e_status)).
  assert (Hu : ∃ s', update (interp_attrs X) (clock w) [("finished", PyBool true); ("concsize", PyInt n)] st
                     = (s', Ok tt)
                     ∧ finished s' = PyBool true ∧ concsize s' = PyInt n).
  { destruct st. eexists. split; [reflexivity |]. by split. }
  destruct Hu as (s' & -> & Hf & Hc).
  eexists. split; [done |]. split_and!; try done.
  - exists s'. simpl. by rewrite lookup_insert_eq.
  - intros k Hk. simpl. by rewrite lookup_insert_ne.
Qed.

(** A pass that succeeds saved the concordance under the registered path
    and recorded its size, touching no other entry. *)
Lemma sync_step_records sh q act d w d' w' :
  sync_step X sh q act d w = (Ok d', w') →
  recorded (cd_size d') (sh, take (S act) q) w'
  ∧ (∀ k, k ≠ (sh, take (S act) q) → cmap w' !! k = cmap w !! k)
  ∧ (∃ p, e_path <$> cmap w !! (sh, take (S act) q) = Some p
          ∧ files w' !! p = Some (Some d')).
Proof.
  rewrite sync_step_eq. destruct (q !! act) as [[|c args]|]; [done | | done].
  intros H. inv_bind H.
  unfold engine_exec, bind, modify, lift in Hm.
  destruct (exec_command X d (String c "") args) as [d1| |] eqn:Hexec; [| done | done].
  injection Hm as <- <-.
  destruct (in_gae (String c "")); [done |].
  inv_bind H. unfold cache_file_path, gets in Hm. injection Hm as <- <-.
  cbn [cmap add_event] in H.
  destruct (e_path <$> cmap w !! (sh, take (S act) q)) as [p|] eqn:Hp; [| done].
  inv_bind H. unfold conc_save, bind, modify in Hm.
  destruct (conc_save_error X d1 p); [done |]. injection Hm as <- <-.
  inv_bind H. injection H as <- <-.
  match type of Hm with
  | update_calc_status _ _ _ _ ?w0 = _ =>
      destruct (update_calc_status_records sh (take (S act) q) (cd_size d1) w0)
        as (w2 & Hu & Hrec & Hother & Hfiles)
  end.
  rewrite Hu in Hm. injection Hm as _ <-.
  split_and!; [done | | ].
  - intros k Hk. by rewrite Hother.
  - exists p. split; [done |]. rewrite Hfiles. simpl. apply lookup_insert_eq.
Qed.

Lemma run_steps_frame sh q acts d w d' w' k :
  run_steps X sh q acts d w = (Ok d', w') →
  (∀ act, act ∈ acts → k ≠ (sh, take (S act) q)) →
  cmap w' !! k = cmap w !! k.
Proof.
  revert d w. induction acts as [|a rest IH]; intros d w.
  - by intros [= _ <-].
  - rewrite run_steps_cons. intros H Hk. inv_bind H.
    apply sync_step_records in Hm as (_ & Hother & _).
    rewrite (IH _ _ H) by (intros act Hact; apply Hk; by right).
    apply Hother. apply Hk. by left.
Qed.

Lemma run_steps_app sh q pre post d w d' w' :
  run_steps X sh q (pre ++ post) d w = (Ok d', w') →
  ∃ d1 w1, run_steps X sh q pre d w = (Ok d1, w1)
           ∧ run_steps X sh q post d1 w1 = (Ok d', w').
Proof.
  revert d w. induction pre as [|a pre IH]; intros d w; cbn [app].
  - intros H. by exists d, w.
  - rewrite !run_steps_cons.
    intros H. inv_bind H. apply IH in H as (d1 & w1 & Hpre & Hpost).
    exists d1, w1. split; [| done]. by rewrite (bind_Ok _ _ _ _ _ Hm).
Qed.

Lemma prefix_keys_differ (sh : option string) (q : list string) (a b : nat) :
  (a < length q)%nat → (b < length q)%nat → a ≠ b →
  (sh, take (S a) q) ≠ (sh, take (S b) q).
Proof.
  intros Ha Hb Hne [= Heq]. apply (f_equal length) in Heq.
  rewrite !length_take in Heq. lia.
Qed.

End SyncSteps.

(** [ConcSyncCalculation.__call__], line 309-319.  When the steps over
    [acts] all succeed, the loop returns, and every step [act] has then
    left the status of [q[:act+1]] finished, with [concsize] the size the
    concordance had right after that step, later steps notwithstanding. *)
Theorem sync_steps_record_sizes (X : Externals) (sh : option string)
    (q : list string) (acts : list nat) (d d' : ConcData) (w w' : World) :
  NoDup acts →
  (∀ act, act ∈ acts → (act < length q)%nat) →
  run_steps X sh q acts d w = (Ok d', w') →
  sync_loop X sh q acts d w = (Ok tt, w')
  ∧ ∀ pre act post da wa,
      acts = pre ++ act :: post →
      run_steps X sh q (pre ++ [act]) d w = (Ok da, wa) →
      recorded (cd_size da) (sh, take (S act) q) w'.
Proof.
  intros Hnd Hlen Hrun. split.
  - rewrite <- (app_nil_r acts).
    by rewrite (sync_loop_after_steps X sh q acts [] d w d' w' Hrun).
  - intros pre act post da wa -> Hpre.
    apply run_steps_app in Hrun as (d1 & w1 & Hrun1 & Hrun2).
    apply run_steps_app in Hpre as (d1' & w1' & Hrun1' & Hact).
    rewrite Hrun1 in Hrun1'. injection Hrun1' as <- <-.
    rewrite run_steps_cons in Hact, Hrun2.
    inv_bind Hact. injection Hact as <- <-.
    rewrite (bind_Ok _ _ _ _ _ Hm) in Hrun2.
    apply sync_step_records in Hm as ((st & Hst & Hf & Hc) & _).
    exists st. split; [| done].
    rewrite (run_steps_frame X sh q post _ _ _ _ _ Hrun2); [done |].
    intros b Hb. apply not_eq_sym. apply NoDup_app in Hnd as (_ & _ & Hnd).
    apply NoDup_cons in Hnd as [Hnotin _].
    apply prefix_keys_differ.
    + apply Hlen. apply elem_of_app. right. by right.
    + apply Hlen. apply elem_of_app. right. by left.
    + intros ->. done.
Qed.

Lemma sync_steps_record_sizes_witness :
  let st := status_at_200 (PyBool false) (PyInt 0) PyNone in
  let w := one_entry_world ["q1"; "r10"] st in
  ∃ w', sync_loop quiet None ["q1"; "r10"] [1%nat] saved_q1 w = (Ok tt, w')
        ∧ recorded 10 (None, ["q1"; "r10"]) w'.
Proof.
  intros st w.
  pose (w' := (run_steps quiet None ["q1"; "r10"] [1%nat] saved_q1 w).2).
  pose (d' := mk_ConcData ["q1"; "r10"] 10 true).
  destruct (sync_steps_record_sizes quiet None ["q1"; "r10"] [1%nat] saved_q1
              d' w w') as [Hloop Hrec].
  - apply (bool_decide_unpack _). vm_compute. exact I.
  - intros act Hact. apply list_elem_of_singleton in Hact as ->. simpl. lia.
  - vm_compute. reflexivity.
  - exists w'. split; [exact Hloop |].
    apply (Hrec [] 1%nat [] d' w' eq_refl). vm_compute. reflexivity.
Defined.
